(** * Graph resolution and model building of [GraphAutoModel]

    A shallow embedding of [autokeras/auto/auto_model.py]: the object graph of
    nodes and hypermodels, the depth-first search [_search_network], the
    breadth-first ordering of [_build_network], [_add_hypermodel],
    [_add_node], the [build] loop and the metric / loss inference. *)

From stdpp Require Import gmap strings list fin_maps sorting.

(** ** The object store

    Python nodes and hypermodels are objects compared by identity.  An object
    is represented by its index in the store; a reference is a [nat]. *)

Module HyperNode.
Record t := mk {
  shape : option (list nat);
  in_hypermodels : list nat;
  out_hypermodels : list nat
}.
(** What a reference outside the store denotes: an object with no links
    (Python has no such reference; the store of a real program is closed). *)
Definition blank : t := mk None [] [].
End HyperNode.

Inductive hm_class := ClassificationHead | OtherHyperModel.

Module HyperModel.
Record t := mk {
  name : string;
  inputs : list nat;
  outputs : list nat;
  output_shape : option (list nat);
  class : hm_class
}.
Definition blank : t := mk ""%string [] [] None OtherHyperModel.
End HyperModel.

Record Heap := {
  heap_nodes : list HyperNode.t;
  heap_hypermodels : list HyperModel.t
}.

Definition node_at (h : Heap) (n : nat) : HyperNode.t :=
  default HyperNode.blank (heap_nodes h !! n).

Definition hypermodel_at (h : Heap) (b : nat) : HyperModel.t :=
  default HyperModel.blank (heap_hypermodels h !! b).

Definition out_hypermodels_of (h : Heap) (n : nat) : list nat :=
  HyperNode.out_hypermodels (node_at h n).
Definition in_hypermodels_of (h : Heap) (n : nat) : list nat :=
  HyperNode.in_hypermodels (node_at h n).
Definition shape_of (h : Heap) (n : nat) : option (list nat) :=
  HyperNode.shape (node_at h n).
Definition outputs_of (h : Heap) (b : nat) : list nat :=
  HyperModel.outputs (hypermodel_at h b).
Definition inputs_of (h : Heap) (b : nat) : list nat :=
  HyperModel.inputs (hypermodel_at h b).
Definition name_of (h : Heap) (b : nat) : string :=
  HyperModel.name (hypermodel_at h b).

(** [isinstance(hypermodel, ClassificationHead)] *)
Definition isinstance_ClassificationHead (h : Heap) (b : nat) : bool :=
  match HyperModel.class (hypermodel_at h b) with
  | ClassificationHead => true
  | OtherHyperModel => false
  end.

(** ** Exceptions and results *)

Inductive exn :=
  | ValueError (msg : string)
  | IndexError
  | KeyError
  (* an exception of another class, raised by code outside these sources *)
  | OtherError (cls : string).

(** A computation returns, raises, or exhausts the fuel of a bounded loop. *)
Inductive result (A : Type) :=
  | Ok (a : A)
  | Raise (e : exn)
  | OutOfFuel.
Arguments Ok {A} a.
Arguments Raise {A} e.
Arguments OutOfFuel {A}.

Definition result_bind {A B} (f : A → result B) (r : result A) : result B :=
  match r with
  | Ok a => f a
  | Raise e => Raise e
  | OutOfFuel => OutOfFuel
  end.

#[global] Instance result_ret : MRet result := λ A a, Ok a.
#[global] Instance result_mbind : MBind result := λ A B f r, result_bind f r.

Definition cycle_error : exn :=
  ValueError "The network has a cycle."%string.
Definition disconnected_error : exn :=
  ValueError "Inputs and outputs not connected."%string.
Definition missing_input_error (hm_name : string) : exn :=
  ValueError
    ("A required input is missing for HyperModel " ++ hm_name ++ ". ")%string.

(** ** [_add_node] *)

Definition _add_node (input_node : nat) (node_to_id : gmap nat nat)
  : gmap nat nat :=
  match node_to_id !! input_node with
  | None => <[input_node := size node_to_id]> node_to_id
  | Some _ => node_to_id
  end.

(** ** [_search_network]

    The state threaded through the recursion: [self.node_to_id] and the two
    sets that the callers share by reference. *)

Record search_state := SearchState {
  s_node_to_id : gmap nat nat;
  s_in_stack : gset nat;
  s_visited : gset nat
}.

Section search.
Variable h : Heap.
Variable outputs : list nat.

(** Body of [for output_node in hypermodel.outputs]. *)
Definition search_output (rec : nat → search_state → result search_state)
    (output_node : nat) (acc : search_state * bool)
  : result (search_state * bool) :=
  if decide (output_node ∈ s_in_stack acc.1) then Raise cycle_error
  else
    st ← (if decide (output_node ∈ s_visited acc.1) then Ok acc.1
          else rec output_node acc.1);
    Ok (st, if decide (output_node ∈ dom (s_node_to_id st)) then true
            else acc.2).

Fixpoint search_outputs (rec : nat → search_state → result search_state)
    (l : list nat) (acc : search_state * bool)
  : result (search_state * bool) :=
  match l with
  | [] => Ok acc
  | output_node :: l' =>
      acc' ← search_output rec output_node acc;
      search_outputs rec l' acc'
  end.

(** [for hypermodel in input_node.out_hypermodels] *)
Fixpoint search_hypermodels (rec : nat → search_state → result search_state)
    (hms : list nat) (acc : search_state * bool)
  : result (search_state * bool) :=
  match hms with
  | [] => Ok acc
  | hypermodel :: hms' =>
      acc' ← search_outputs rec (outputs_of h hypermodel) acc;
      search_hypermodels rec hms' acc'
  end.

Fixpoint _search_network (fuel : nat) (input_node : nat) (st : search_state)
  : result search_state :=
  match fuel with
  | 0 => OutOfFuel
  | S fuel' =>
      let st1 := SearchState (s_node_to_id st)
                             ({[input_node]} ∪ s_in_stack st)
                             ({[input_node]} ∪ s_visited st) in
      let outputs_reached := bool_decide (input_node ∈ outputs) in
      acc ← search_hypermodels (_search_network fuel')
              (out_hypermodels_of h input_node) (st1, outputs_reached);
      let node_to_id :=
        if acc.2 : bool then _add_node input_node (s_node_to_id acc.1)
        else s_node_to_id acc.1 in
      (* set.remove raises KeyError on a missing element *)
      if decide (input_node ∈ s_in_stack acc.1)
      then Ok (SearchState node_to_id (s_in_stack acc.1 ∖ {[input_node]})
                           (s_visited acc.1))
      else Raise KeyError
  end.

(** [for input_node in self.inputs:
       self._search_network(input_node, self.outputs, set(), set())] *)
Fixpoint search_inputs (fuel : nat) (l : list nat) (node_to_id : gmap nat nat)
  : result (gmap nat nat) :=
  match l with
  | [] => Ok node_to_id
  | input_node :: l' =>
      st ← _search_network fuel input_node (SearchState node_to_id ∅ ∅);
      search_inputs fuel l' (s_node_to_id st)
  end.
End search.

(** ** The [GraphAutoModel] object

    The fields that resolution and [build] read or write.  [__init__] sets the
    four derived fields to [None] and calls [_build_network], which overwrites
    them before any of them is read; they are represented by empty values. *)

Record GraphAutoModel := {
  inputs : list nat;
  outputs : list nat;
  node_to_id : gmap nat nat;
  nodes : list nat;
  hypermodel_to_id : gmap nat nat;
  hypermodels : list nat
}.

Definition set_node_to_id (m : gmap nat nat) (self : GraphAutoModel) :=
  {| inputs := inputs self; outputs := outputs self; node_to_id := m;
     nodes := nodes self; hypermodel_to_id := hypermodel_to_id self;
     hypermodels := hypermodels self |}.

Definition set_nodes (l : list nat) (self : GraphAutoModel) :=
  {| inputs := inputs self; outputs := outputs self;
     node_to_id := node_to_id self; nodes := l;
     hypermodel_to_id := hypermodel_to_id self;
     hypermodels := hypermodels self |}.

Definition set_hypermodels (ids : gmap nat nat) (l : list nat)
    (self : GraphAutoModel) :=
  {| inputs := inputs self; outputs := outputs self;
     node_to_id := node_to_id self; nodes := nodes self;
     hypermodel_to_id := ids; hypermodels := l |}.

(** [sorted(list(self.node_to_id.keys()), key=lambda x: self.node_to_id[x])] *)
Definition id_le (x y : nat * nat) : Prop := x.2 ≤ y.2.
#[global] Instance id_le_dec : RelDecision id_le.
Proof. intros x y. unfold id_le. apply _. Defined.

Definition sorted_nodes (m : gmap nat nat) : list nat :=
  fst <$> merge_sort id_le (map_to_list m).

Section resolve.
Variable h : Heap.

(** [for input_node in hypermodel.inputs:
       if input_node not in self.node_to_id: raise ValueError(...)] *)
Fixpoint check_inputs (b : nat) (l : list nat) (m : gmap nat nat)
  : result unit :=
  match l with
  | [] => Ok ()
  | input_node :: l' =>
      match m !! input_node with
      | None => Raise (missing_input_error (name_of h b))
      | Some _ => check_inputs b l' m
      end
  end.

Definition _add_hypermodel (hypermodel : nat) (self : GraphAutoModel)
  : result GraphAutoModel :=
  let self1 :=
    if decide (hypermodel ∈ hypermodels self) then self
    else
      let hypermodel_id := length (hypermodels self) in
      set_hypermodels (<[hypermodel := hypermodel_id]> (hypermodel_to_id self))
                      (hypermodels self ++ [hypermodel]) self in
  let self2 :=
    set_node_to_id (foldl (λ m output_node, _add_node output_node m)
                          (node_to_id self1) (outputs_of h hypermodel))
                   self1 in
  _ ← check_inputs hypermodel (inputs_of h hypermodel) (node_to_id self2);
  Ok self2.

(** [for node in (self.inputs + self.outputs):
       if node not in self.node_to_id: raise ValueError(...)] *)
Fixpoint check_connected (l : list nat) (m : gmap nat nat) : result unit :=
  match l with
  | [] => Ok ()
  | node :: l' =>
      match m !! node with
      | None => Raise disconnected_error
      | Some _ => check_connected l' m
      end
  end.

(** The local variables of the breadth-first loop, next to [self]. *)
Record sort_state := SortState {
  q_self : GraphAutoModel;
  q_visited : gset nat;
  q_queue : list nat
}.

(** [for input_node in self.inputs: queue.put(...); visited_nodes.add(...)] *)
Definition enqueue_inputs (self : GraphAutoModel) : sort_state :=
  foldl (λ st input_node,
           SortState (q_self st) ({[input_node]} ∪ q_visited st)
                     (q_queue st ++ [input_node]))
        (SortState self ∅ []) (inputs self).

(** The inner [for output_node in hypermodel.outputs] of the loop. *)
Definition enqueue_output (st : sort_state) (output_node : nat)
  : sort_state :=
  if decide ((output_node ∉ q_visited st)
             ∧ (output_node ∈ dom (node_to_id (q_self st))))
  then SortState (q_self st) ({[output_node]} ∪ q_visited st)
                 (q_queue st ++ [output_node])
  else st.

(** [any([output_node in self.node_to_id
          for output_node in hypermodel.outputs])] *)
Definition any_output_known (self : GraphAutoModel) (b : nat) : bool :=
  existsb (λ output_node,
             bool_decide (output_node ∈ dom (node_to_id self)))
          (outputs_of h b).

(** [for hypermodel in input_node.out_hypermodels] *)
Fixpoint sort_hypermodels (hms : list nat) (st : sort_state)
  : result sort_state :=
  match hms with
  | [] => Ok st
  | hypermodel :: hms' =>
      if negb (any_output_known (q_self st) hypermodel)
      then sort_hypermodels hms' st
      else
        self' ← _add_hypermodel hypermodel (q_self st);
        sort_hypermodels hms'
          (foldl enqueue_output
                 (SortState self' (q_visited st) (q_queue st))
                 (outputs_of h hypermodel))
  end.

(** [while not queue.empty()] *)
Fixpoint sort_loop (fuel : nat) (st : sort_state) : result sort_state :=
  match fuel with
  | 0 => OutOfFuel
  | S fuel' =>
      match q_queue st with
      | [] => Ok st
      | input_node :: queue =>
          st' ← sort_hypermodels (out_hypermodels_of h input_node)
                   (SortState (q_self st) (q_visited st) queue);
          sort_loop fuel' st'
      end
  end.
End resolve.

(** [hypermodel.output_shape = shape] on the object [b] of the store. *)
Definition set_output_shape (b : nat) (s : option (list nat)) (h : Heap)
  : Heap :=
  {| heap_nodes := heap_nodes h;
     heap_hypermodels :=
       alter (λ hm, HyperModel.mk (HyperModel.name hm) (HyperModel.inputs hm)
                                  (HyperModel.outputs hm) s
                                  (HyperModel.class hm))
             b (heap_hypermodels h) |}.

(** [for output_node in self.outputs:
       hypermodel = output_node.in_hypermodels[0]
       hypermodel.output_shape = output_node.shape] *)
Fixpoint set_output_shapes (l : list nat) (h : Heap) : result Heap :=
  match l with
  | [] => Ok h
  | output_node :: l' =>
      match in_hypermodels_of h output_node with
      | [] => Raise IndexError
      | hypermodel :: _ =>
          set_output_shapes l'
            (set_output_shape hypermodel (shape_of h output_node) h)
      end
  end.

(** The nodes the traversals can meet: the declared inputs and the outputs of
    the hypermodels of the store.  It bounds the depth of the recursion and
    the number of iterations of the queue loop. *)
Definition all_nodes (h : Heap) (ins : list nat) : gset nat :=
  list_to_set ins
  ∪ list_to_set (hm ← heap_hypermodels h; HyperModel.outputs hm).

Definition search_fuel (h : Heap) (ins : list nat) : nat :=
  S (size (all_nodes h ins)).
Definition sort_fuel (h : Heap) (ins : list nat) : nat :=
  S (length ins + size (all_nodes h ins)).

(** The first loop of [_build_network], from [self.node_to_id = {}]. *)
Definition interested_nodes (h : Heap) (self : GraphAutoModel)
  : result (gmap nat nat) :=
  search_inputs h (outputs self) (search_fuel h (inputs self)) (inputs self) ∅.

(** The queue loop of [_build_network], from [self.hypermodels = []]. *)
Definition sorted_hypermodels (h : Heap) (self : GraphAutoModel)
  : result GraphAutoModel :=
  st ← sort_loop h (sort_fuel h (inputs self))
         (enqueue_inputs (set_hypermodels ∅ [] self));
  Ok (q_self st).

Definition _build_network (h : Heap) (self : GraphAutoModel)
  : result (Heap * GraphAutoModel) :=
  m ← interested_nodes h self;
  let self1 := set_nodes (sorted_nodes m) (set_node_to_id m self) in
  _ ← check_connected (inputs self1 ++ outputs self1) (node_to_id self1);
  self2 ← sorted_hypermodels h self1;
  h' ← set_output_shapes (outputs self2) h;
  Ok (h', self2).

(** [GraphAutoModel.__init__] *)
Definition GraphAutoModel_init (h : Heap) (ins outs : list nat)
  : result (Heap * GraphAutoModel) :=
  _build_network h {| inputs := ins; outputs := outs; node_to_id := ∅;
                      nodes := []; hypermodel_to_id := ∅; hypermodels := [] |}.

(** ** [_infer_metrics], [_infer_loss] *)

(** Names of [tf.keras.metrics]: [Accuracy] is the metric class
    [tf.keras.metrics.Accuracy] itself (not an instance of it), which counts
    how often a prediction equals its label; [categorical_accuracy] is the
    function [tf.keras.metrics.categorical_accuracy], which compares the
    positions of the largest entries; [mse] is the function
    [tf.keras.metrics.mse]. *)
Inductive metric := Accuracy | categorical_accuracy | mse.
Inductive loss := categorical_crossentropy | mean_squared_error.
Inductive optimizer := Adam | Adadelta | SGD.

Definition _infer_metrics (h : Heap) (self : GraphAutoModel) : list metric :=
  if existsb (isinstance_ClassificationHead h) (hypermodels self)
  then [Accuracy] else [mse].

Definition _infer_loss (h : Heap) (self : GraphAutoModel) : loss :=
  if existsb (isinstance_ClassificationHead h) (hypermodels self)
  then categorical_crossentropy else mean_squared_error.

(** ** [build]

    The tensor library, the hyperparameter container and the [build] methods
    of the nodes and hypermodels are collaborators outside the repository's
    sources.  They are parameters of the section, and every call of one of
    them may raise:
    - [node_build hp n] stands for [n.build(hp)];
    - [hypermodel_build hp b ins] for
      [format_inputs(b.build(hp, inputs=ins, sub_model=True), b.name)], a
      list of tensors;
    - [keras_Model ins outs] for [tf.keras.Model(ins, outs)];
    - [hp_Choice hp name values] for [hp.Choice(name, values)()], the
      optimizer built from the chosen class;
    - [model_compile model optimizer metrics loss] for
      [model.compile(optimizer=..., metrics=..., loss=...)], with the
      compiled model as result. *)

Section build.
Context {tensor HyperParameters keras_model : Type}.
Variable node_build : HyperParameters → nat → result tensor.
Variable hypermodel_build :
  HyperParameters → nat → list tensor → result (list tensor).
Variable keras_Model : list tensor → list tensor → result keras_model.
Variable hp_Choice :
  HyperParameters → string → list optimizer → result optimizer.
Variable model_compile :
  keras_model → optimizer → list metric → loss → result keras_model.
Variable h : Heap.
Variable self : GraphAutoModel.
Variable hp : HyperParameters.

(** [d[k]] on a dict: [KeyError] on a missing key. *)
Definition getitem {V} (d : gmap nat V) (k : nat) : result V :=
  match d !! k with
  | Some v => Ok v
  | None => Raise KeyError
  end.

(** [real_nodes[self.node_to_id[node]] for node in l] *)
Fixpoint real_nodes_of (real_nodes : gmap nat tensor) (l : list nat)
  : result (list tensor) :=
  match l with
  | [] => Ok []
  | node :: l' =>
      node_id ← getitem (node_to_id self) node;
      real_node ← getitem real_nodes node_id;
      rest ← real_nodes_of real_nodes l';
      Ok (real_node :: rest)
  end.

(** [for input_node in self.inputs:
       node_id = self.node_to_id[input_node]
       real_nodes[node_id] = input_node.build(hp)] *)
Fixpoint build_inputs (l : list nat) (real_nodes : gmap nat tensor)
  : result (gmap nat tensor) :=
  match l with
  | [] => Ok real_nodes
  | input_node :: l' =>
      node_id ← getitem (node_to_id self) input_node;
      real_node ← node_build hp input_node;
      build_inputs l' (<[node_id := real_node]> real_nodes)
  end.

(** [for output_node, real_output_node in zip(hypermodel.outputs, outputs)] *)
Fixpoint record_outputs (l : list (nat * tensor))
    (real_nodes : gmap nat tensor) : result (gmap nat tensor) :=
  match l with
  | [] => Ok real_nodes
  | (output_node, real_output_node) :: l' =>
      node_id ← getitem (node_to_id self) output_node;
      record_outputs l' (<[node_id := real_output_node]> real_nodes)
  end.

(** [for hypermodel in self.hypermodels], with the list of the hypermodels
    whose [build] has been called so far, in call order.  The argument list
    of a call is evaluated before the call. *)
Fixpoint build_hypermodels (hms : list nat) (real_nodes : gmap nat tensor)
    (calls : list nat) : list nat * result (gmap nat tensor) :=
  match hms with
  | [] => (calls, Ok real_nodes)
  | hypermodel :: hms' =>
      match real_nodes_of real_nodes (inputs_of h hypermodel) with
      | Ok ins =>
          let calls' := calls ++ [hypermodel] in
          match real_outputs ← hypermodel_build hp hypermodel ins;
                record_outputs (zip (outputs_of h hypermodel) real_outputs)
                               real_nodes with
          | Ok real_nodes' => build_hypermodels hms' real_nodes' calls'
          | Raise e => (calls', Raise e)
          | OutOfFuel => (calls', OutOfFuel)
          end
      | Raise e => (calls, Raise e)
      | OutOfFuel => (calls, OutOfFuel)
      end
  end.

(** [model = tf.keras.Model(ins, outs)
     optimizer = hp.Choice('optimizer', [Adam, Adadelta, SGD])()
     metrics = self._infer_metrics()
     loss = self._infer_loss()
     model.compile(optimizer=optimizer, metrics=metrics, loss=loss)
     return model] *)
Definition build_model (ins outs : list tensor) : result keras_model :=
  model ← keras_Model ins outs;
  optimizer ← hp_Choice hp "optimizer"%string [Adam; Adadelta; SGD];
  let metrics := _infer_metrics h self in
  let loss := _infer_loss h self in
  model_compile model optimizer metrics loss.

Definition build : list nat * result keras_model :=
  match build_inputs (inputs self) ∅ with
  | Ok real_nodes =>
      let '(calls, r) := build_hypermodels (hypermodels self) real_nodes [] in
      (calls,
       real_nodes' ← r;
       ins ← real_nodes_of real_nodes' (inputs self);
       outs ← real_nodes_of real_nodes' (outputs self);
       build_model ins outs)
  | Raise e => ([], Raise e)
  | OutOfFuel => ([], OutOfFuel)
  end.
End build.

(** ** The graph of a store

    The search follows [node.out_hypermodels] and then [hypermodel.outputs];
    the edges, paths and cycles below are the ones it walks. *)

Definition successors (h : Heap) (n : nat) : list nat :=
  b ← out_hypermodels_of h n; outputs_of h b.

Definition edge (h : Heap) (n m : nat) : Prop := m ∈ successors h n.

(** [n] is a declared output or leads to one. *)
Definition reaches_output (h : Heap) (outs : list nat) (n : nat) : Prop :=
  ∃ o, o ∈ outs ∧ rtc (edge h) n o.

(** [n] is a declared input or can be reached from one. *)
Definition from_input (h : Heap) (ins : list nat) (n : nat) : Prop :=
  ∃ i, i ∈ ins ∧ rtc (edge h) i n.

(** [n] lies on a path from a declared input to a declared output. *)
Definition on_path (h : Heap) (ins outs : list nat) (n : nat) : Prop :=
  from_input h ins n ∧ reaches_output h outs n.

Definition on_cycle (h : Heap) (n : nat) : Prop := tc (edge h) n n.

Definition acyclic (h : Heap) : Prop := ∀ n, ¬ on_cycle h n.

(** What holds of the identifiers the search has assigned so far: they are
    below the size of the dictionary, a node with an identifier has one for
    each of its successors that leads to an output, and an identifier is
    larger than the identifiers of the successors (the nodes are numbered when
    their call returns). *)
Record ids_ok (h : Heap) (outs : list nat) (m : gmap nat nat) : Prop := IdsOk {
  ids_dense : ∀ x v, m !! x = Some v → v < size m;
  ids_succ : ∀ x s, x ∈ dom m → edge h x s → reaches_output h outs s →
             s ∈ dom m;
  ids_order : ∀ x s vx vs, m !! x = Some vx → m !! s = Some vs →
              edge h x s → vs < vx
}.

(** What holds of the state of a search between two steps.  A node is
    finished when it is visited and no longer on the stack. *)
Record search_inv (h : Heap) (ins outs : list nat) (st : search_state)
  : Prop := SearchInv {
  inv_stack : s_in_stack st ⊆ s_visited st;
  inv_closed : ∀ d s, d ∈ s_visited st → d ∉ s_in_stack st → edge h d s →
               s ∈ s_visited st ∧ s ∉ s_in_stack st;
  inv_exact : ∀ d, d ∈ s_visited st → d ∉ s_in_stack st →
              (d ∈ dom (s_node_to_id st) ↔ reaches_output h outs d);
  inv_sound : ∀ x, x ∈ dom (s_node_to_id st) → on_path h ins outs x;
  inv_acyclic : ∀ d, d ∈ s_visited st → d ∉ s_in_stack st → ¬ on_cycle h d;
  inv_ids : ids_ok h outs (s_node_to_id st)
}.

(** The frame of a call [rec n st]: the stack is restored, the visited set
    grows and contains [n], identifiers are only added. *)
Definition search_frame (rec : nat → search_state → result search_state)
  : Prop :=
  ∀ n st st', rec n st = Ok st' →
    s_in_stack st' = s_in_stack st ∖ {[n]}
    ∧ {[n]} ∪ s_visited st ⊆ s_visited st'
    ∧ dom (s_node_to_id st) ⊆ dom (s_node_to_id st').

(** What a call [rec n st] on an unvisited node reachable from an input
    keeps. *)
Definition search_spec (h : Heap) (ins outs : list nat)
    (rec : nat → search_state → result search_state) : Prop :=
  ∀ n st st', search_inv h ins outs st → n ∉ s_visited st →
    from_input h ins n → rec n st = Ok st' → search_inv h ins outs st'.

(** ** Facts on [_add_node] *)

Lemma dom_add_node (n : nat) (m : gmap nat nat) :
  dom (_add_node n m) = {[n]} ∪ dom m.
Proof.
  unfold _add_node. destruct (m !! n) eqn:E.
  - apply (elem_of_dom_2 m) in E. set_solver.
  - by rewrite dom_insert_L.
Qed.

Lemma add_node_known (n : nat) (m : gmap nat nat) :
  n ∈ dom m → _add_node n m = m.
Proof.
  intros [v Hv]%elem_of_dom. unfold _add_node. by rewrite Hv.
Qed.

Lemma add_node_lookup_old (n x : nat) (m : gmap nat nat) :
  x ∈ dom m → _add_node n m !! x = m !! x.
Proof.
  intros Hx. unfold _add_node. destruct (m !! n) eqn:E; [done|].
  rewrite lookup_insert_ne; [done|]. intros ->.
  apply elem_of_dom in Hx as [v Hv]. congruence.
Qed.

(** ** Facts on the monad *)

Lemma bind_Ok {A B} (f : A → result B) (r : result A) (b : B) :
  r ≫= f = Ok b → ∃ a, r = Ok a ∧ f a = Ok b.
Proof. destruct r; simpl; [eauto | done | done]. Qed.

Lemma bind_Raise {A B} (f : A → result B) (r : result A) (e : exn) :
  r ≫= f = Raise e → r = Raise e ∨ ∃ a, r = Ok a ∧ f a = Raise e.
Proof. destruct r; simpl; [eauto | intros [= ->]; eauto | done]. Qed.

Lemma bind_OutOfFuel {A B} (f : A → result B) (r : result A) :
  r ≫= f = OutOfFuel → r = OutOfFuel ∨ ∃ a, r = Ok a ∧ f a = OutOfFuel.
Proof. destruct r; simpl; [eauto | done | eauto]. Qed.

(** ** The search: frame *)

Section search_facts.
Variable h : Heap.
Variables ins outs : list nat.

Lemma search_outputs_app rec l1 l2 acc :
  search_outputs rec (l1 ++ l2) acc
  = search_outputs rec l1 acc ≫= search_outputs rec l2.
Proof.
  revert acc. induction l1 as [|x l1 IH]; intros acc; simpl; [done|].
  destruct (search_output rec x acc); simpl; [apply IH | done | done].
Qed.

(** The two nested loops walk the successors of the node in order. *)
Lemma search_hypermodels_successors rec hms acc :
  search_hypermodels h rec hms acc
  = search_outputs rec (b ← hms; outputs_of h b) acc.
Proof.
  revert acc. induction hms as [|b hms IH]; intros acc; simpl; [done|].
  rewrite search_outputs_app.
  destruct (search_outputs rec (outputs_of h b) acc); simpl;
    [apply IH | done | done].
Qed.

Lemma search_output_frame rec s st r st' r' :
  search_frame rec →
  search_output rec s (st, r) = Ok (st', r') →
  (s ∉ s_in_stack st)
  ∧ s_in_stack st' = s_in_stack st
  ∧ {[s]} ∪ s_visited st ⊆ s_visited st'
  ∧ dom (s_node_to_id st) ⊆ dom (s_node_to_id st').
Proof.
  intros Hrec. unfold search_output; simpl.
  destruct (decide (s ∈ s_in_stack st)) as [|Hs]; [done|].
  destruct (decide (s ∈ s_visited st)) as [Hv|Hv]; simpl.
  - intros [= <- <-]. set_solver.
  - destruct (rec s st) as [st1| |] eqn:E; simpl; [|done|done].
    intros [= <- <-]. apply Hrec in E as (E1 & E2 & E3).
    split; [done|]. split; [set_solver|]. done.
Qed.

Lemma search_outputs_frame rec l st r st' r' :
  search_frame rec →
  search_outputs rec l (st, r) = Ok (st', r') →
  s_in_stack st' = s_in_stack st
  ∧ s_visited st ⊆ s_visited st'
  ∧ dom (s_node_to_id st) ⊆ dom (s_node_to_id st').
Proof.
  intros Hrec. revert st r.
  induction l as [|s l IH]; intros st r; simpl.
  - by intros [= <- <-].
  - intros ([st1 r1] & E1 & E2)%bind_Ok.
    apply search_output_frame in E1 as (_ & F1 & F2 & F3); [|done].
    apply IH in E2 as (G1 & G2 & G3).
    split; [congruence|]. split; set_solver.
Qed.

Lemma search_network_frame fuel : search_frame (_search_network h outs fuel).
Proof.
  induction fuel as [|fuel IH]; intros n st st'; simpl; [done|].
  rewrite search_hypermodels_successors.
  intros ([st2 r2] & E & F)%bind_Ok. simpl in F.
  apply search_outputs_frame in E as (E1 & E2 & E3); [|done]. simpl in *.
  destruct (decide (n ∈ s_in_stack st2)); [|done].
  injection F as <-. simpl. split; [set_solver|]. split; [set_solver|].
  destruct r2; [rewrite dom_add_node; set_solver | done].
Qed.
End search_facts.

(** ** The search: invariant *)

Section search_correct.
Variable h : Heap.
Variables ins outs : list nat.

Lemma reaches_output_step n s :
  edge h n s → reaches_output h outs s → reaches_output h outs n.
Proof. intros He (o & Ho & Hr). exists o. split; [done|]. by econstructor. Qed.

Lemma reaches_output_inv n :
  reaches_output h outs n →
  n ∈ outs ∨ ∃ s, edge h n s ∧ reaches_output h outs s.
Proof.
  intros (o & Ho & Hr). apply rtc_inv in Hr as [->|(s & He & Hs)].
  - by left.
  - right. exists s. split; [done|]. by exists o.
Qed.

Lemma from_input_step n s :
  from_input h ins n → edge h n s → from_input h ins s.
Proof. intros (i & Hi & Hr) He. exists i. split; [done|]. by eapply rtc_r. Qed.

Lemma search_output_inv rec n s st r st' r' :
  search_frame rec → search_spec h ins outs rec →
  search_inv h ins outs st → from_input h ins n → edge h n s →
  (r = true → reaches_output h outs n) →
  search_output rec s (st, r) = Ok (st', r') →
  search_inv h ins outs st'
  ∧ s ∈ s_visited st' ∧ (s ∉ s_in_stack st')
  ∧ (r' = true → reaches_output h outs n)
  ∧ (r' = false → r = false ∧ ¬ reaches_output h outs s).
Proof.
  intros Hframe Hspec Hinv Hn He Hr Hrun.
  assert (Hf := search_output_frame _ _ _ _ _ _ Hframe Hrun).
  destruct Hf as (Hs & F1 & F2 & F3).
  assert (search_inv h ins outs st') as Hinv'.
  { revert Hrun. unfold search_output; simpl.
    destruct (decide (s ∈ s_in_stack st)); [done|].
    destruct (decide (s ∈ s_visited st)) as [Hv|Hv]; simpl.
    - by intros [= <- <-].
    - destruct (rec s st) as [st1| |] eqn:E; simpl; [|done|done].
      intros [= <- <-]. eapply Hspec; eauto using from_input_step. }
  assert (s ∈ s_visited st' ∧ s ∉ s_in_stack st') as [Hv' Hs'].
  { split; [set_solver | by rewrite F1]. }
  assert (r' = if decide (s ∈ dom (s_node_to_id st')) then true else r)
    as Hr'.
  { revert Hrun. unfold search_output; simpl.
    destruct (decide (s ∈ s_in_stack st)); [done|].
    destruct (decide (s ∈ s_visited st)); simpl.
    - by intros [= <- <-].
    - destruct (rec s st); simpl; [|done|done]. by intros [= <- <-]. }
  split; [done|]. split; [done|]. split; [done|].
  destruct (decide (s ∈ dom (s_node_to_id st'))) as [Hd|Hd]; subst r'.
  - split; [|done]. intros _. eapply reaches_output_step; [done|].
    by apply (inv_exact _ _ _ _ Hinv' s).
  - split; [done|]. intros ->. split; [done|].
    by rewrite <-(inv_exact _ _ _ _ Hinv' s).
Qed.

Lemma search_outputs_inv rec n l st r st' r' :
  search_frame rec → search_spec h ins outs rec →
  search_inv h ins outs st → from_input h ins n →
  (∀ s, s ∈ l → edge h n s) →
  (r = true → reaches_output h outs n) →
  search_outputs rec l (st, r) = Ok (st', r') →
  search_inv h ins outs st'
  ∧ (∀ s, s ∈ l → s ∈ s_visited st' ∧ s ∉ s_in_stack st')
  ∧ (r' = true → reaches_output h outs n)
  ∧ (r' = false → r = false ∧ ∀ s, s ∈ l → ¬ reaches_output h outs s).
Proof.
  intros Hframe Hspec. revert st r.
  induction l as [|s l IH]; intros st r Hinv Hn Hl Hr; simpl.
  - intros [= <- <-]. split; [done|]. split; [by intros ? ?%elem_of_nil|].
    split; [done|]. intros ->. split; [done|]. by intros ? ?%elem_of_nil.
  - intros ([st1 r1] & E1 & E2)%bind_Ok.
    eapply search_output_inv in E1 as (I1 & V1 & S1 & R1 & N1); eauto;
      [|apply Hl; by left].
    assert (F := search_outputs_frame _ _ _ _ _ _ Hframe E2).
    destruct F as (F1 & F2 & _).
    apply IH in E2 as (I2 & V2 & R2 & N2); auto;
      [|intros; apply Hl; by right].
    split; [done|]. split.
    { intros x [->|Hx]%elem_of_cons; [|by apply V2].
      split; [set_solver | by rewrite F1]. }
    split; [done|]. intros Hr'. destruct (N2 Hr') as [-> N3].
    destruct (N1 eq_refl) as [-> N4]. split; [done|].
    intros x [->|Hx]%elem_of_cons; [done | by apply N3].
Qed.

Lemma cycle_first_step n :
  on_cycle h n → ∃ s, edge h n s ∧ rtc (edge h) s n.
Proof.
  unfold on_cycle. intros Hc. inversion Hc as [? ? He|? s ? He Ht]; subst.
  - exists n. split; [done | constructor].
  - exists s. split; [done | by apply tc_rtc].
Qed.

(** Numbering a node when its call returns keeps [ids_ok]: the successors
    that lead to an output are numbered already, and the node is not its own
    successor. *)
Lemma add_node_ids_ok n m :
  ids_ok h outs m →
  reaches_output h outs n →
  (∀ s, edge h n s → reaches_output h outs s → s ∈ dom m) →
  ¬ edge h n n →
  ids_ok h outs (_add_node n m).
Proof.
  intros [D S O] Hn Hsucc Hself.
  destruct (decide (n ∈ dom m)) as [Hin|Hin];
    [by rewrite add_node_known|].
  assert (m !! n = None) as Hnone by by apply not_elem_of_dom.
  unfold _add_node. rewrite Hnone. constructor.
  - intros x v. rewrite map_size_insert_None by done.
    destruct (decide (x = n)) as [->|Hne].
    + rewrite lookup_insert_eq. intros [= <-]. lia.
    + rewrite lookup_insert_ne by done. intros Hx%D. lia.
  - intros x s. rewrite !dom_insert_L.
    intros [->%elem_of_singleton|Hx]%elem_of_union He Hs.
    + apply elem_of_union; right. by apply Hsucc.
    + apply elem_of_union; right. by eapply S.
  - intros x s vx vs.
    destruct (decide (x = n)) as [->|Hx], (decide (s = n)) as [->|Hs].
    + by intros _ _ ?.
    + rewrite lookup_insert_eq, lookup_insert_ne by done.
      intros [= <-] Hvs%D _. done.
    + rewrite lookup_insert_ne by done. intros Hvx _ He. exfalso.
      apply Hin. eapply S; [|done|done]. by eapply elem_of_dom_2.
    + rewrite !lookup_insert_ne by done. apply O.
Qed.

(** Everything a finished node leads to is finished. *)
Lemma finished_closed st d x :
  search_inv h ins outs st →
  d ∈ s_visited st → d ∉ s_in_stack st → rtc (edge h) d x →
  x ∈ s_visited st ∧ x ∉ s_in_stack st.
Proof.
  intros Hinv Hv Hs Hr. induction Hr as [|d s x He Hr IH]; [done|].
  destruct (inv_closed _ _ _ _ Hinv d s) as [? ?]; auto.
Qed.

Lemma search_network_inv fuel :
  search_spec h ins outs (_search_network h outs fuel).
Proof.
  induction fuel as [|fuel IH]; intros n st st' Hinv Hn Hfrom; simpl;
    [done|].
  rewrite search_hypermodels_successors.
  intros ([st2 r2] & E & F)%bind_Ok. simpl in F.
  assert (Hfr := search_network_frame h outs fuel).
  assert (G := search_outputs_frame _ _ _ _ _ _ Hfr E).
  destruct G as (G1 & G2 & G3). simpl in G1, G2, G3.
  assert (Hns : n ∉ s_in_stack st).
  { intros ?. apply Hn. by apply (inv_stack _ _ _ _ Hinv). }
  assert (Hinv1 : search_inv h ins outs
            (SearchState (s_node_to_id st) ({[n]} ∪ s_in_stack st)
                         ({[n]} ∪ s_visited st))).
  { constructor; simpl.
    + pose proof (inv_stack _ _ _ _ Hinv). set_solver.
    + intros d s Hd Hds He.
      assert (d ∈ s_visited st ∧ d ∉ s_in_stack st) as [? ?] by set_solver.
      destruct (inv_closed _ _ _ _ Hinv d s) as [? ?]; auto.
      set_solver.
    + intros d Hd Hds. apply (inv_exact _ _ _ _ Hinv); set_solver.
    + apply (inv_sound _ _ _ _ Hinv).
    + intros d Hd Hds. apply (inv_acyclic _ _ _ _ Hinv); set_solver.
    + apply (inv_ids _ _ _ _ Hinv). }
  assert (Hr0 : bool_decide (n ∈ outs) = true → reaches_output h outs n).
  { intros Hb. apply bool_decide_eq_true in Hb.
    exists n. split; [done | constructor]. }
  destruct (search_outputs_inv _ n _ _ _ _ _ Hfr IH Hinv1 Hfrom
              (λ s Hs, Hs) Hr0 E) as (I2 & V2 & R2 & N2).
  destruct (decide (n ∈ s_in_stack st2)) as [Hin|]; [|done].
  injection F as <-.
  assert (Hreach : r2 = true ↔ reaches_output h outs n).
  { split; [done|]. intros Hro. destruct r2; [done|].
    destruct (N2 eq_refl) as [N3 N4].
    apply bool_decide_eq_false in N3.
    apply reaches_output_inv in Hro as [?|(s & He & Hs)]; [done|].
    by destruct (N4 s). }
  constructor; simpl.
  + pose proof (inv_stack _ _ _ _ I2). set_solver.
  + intros d s Hd Hds He.
    destruct (decide (d = n)) as [->|Hne].
    * destruct (V2 s He) as [? ?]. split; [done|]. set_solver.
    * assert (d ∉ s_in_stack st2) by set_solver.
      destruct (inv_closed _ _ _ _ I2 d s) as [? ?]; auto.
      split; [done|]. set_solver.
  + intros d Hd Hds.
    destruct (decide (d = n)) as [->|Hne].
    * destruct r2.
      -- rewrite dom_add_node. split; [intros _; by apply Hreach|].
         set_solver.
      -- split.
         ++ intros Hdom. apply (inv_sound _ _ _ _ I2) in Hdom as [_ ?].
            done.
         ++ intros Hro. by apply Hreach in Hro.
    * assert (d ∉ s_in_stack st2) by set_solver.
      rewrite <-(inv_exact _ _ _ _ I2 d) by done.
      destruct r2; [rewrite dom_add_node; set_solver | done].
  + intros x Hx. destruct r2; [|by apply (inv_sound _ _ _ _ I2)].
    rewrite dom_add_node in Hx.
    apply elem_of_union in Hx as [->%elem_of_singleton|Hx];
      [|by apply (inv_sound _ _ _ _ I2)].
    split; [done | by apply Hreach].
  + intros d Hd Hds.
    destruct (decide (d = n)) as [->|Hne].
    * intros (s & He & Hc)%cycle_first_step.
      destruct (V2 s He) as [Hsv Hss].
      destruct (finished_closed st2 s n I2 Hsv Hss Hc) as [_ ?]. done.
    * assert (d ∉ s_in_stack st2) by set_solver.
      by apply (inv_acyclic _ _ _ _ I2).
  + destruct r2; [|apply (inv_ids _ _ _ _ I2)].
    apply add_node_ids_ok; [apply (inv_ids _ _ _ _ I2) | by apply Hreach | |].
    * intros s He Hs. destruct (V2 s He) as [Hsv Hss].
      by apply (inv_exact _ _ _ _ I2 s).
    * intros He. destruct (V2 n He) as [_ ?]. done.
Qed.
End search_correct.

(** ** The search: exceptions and fuel *)

Section search_total.
Variable h : Heap.
Variables ins outs : list nat.

Lemma search_outputs_raise rec l acc e :
  search_frame rec →
  (∀ n st, rec n st = Raise e → e = cycle_error) →
  search_outputs rec l acc = Raise e → e = cycle_error.
Proof.
  intros Hframe Hrec. revert acc.
  induction l as [|s l IH]; intros [st r]; simpl; [done|].
  intros [E|([st1 r1] & E1 & E2)]%bind_Raise; [|by eapply IH].
  revert E. unfold search_output; simpl.
  destruct (decide (s ∈ s_in_stack st)); [by intros [= <-]|].
  destruct (decide (s ∈ s_visited st)); simpl; [done|].
  destruct (rec s st) eqn:E; simpl; [done | | done].
  intros [= ->]. by eapply Hrec.
Qed.

(** The only exception of the search is the cycle error: the node removed
    from the stack at the end of a call is always on it. *)
Lemma search_network_raise fuel n st e :
  _search_network h outs fuel n st = Raise e → e = cycle_error.
Proof.
  revert n st. induction fuel as [|fuel IH]; intros n st; simpl; [done|].
  rewrite search_hypermodels_successors.
  assert (Hfr := search_network_frame h outs fuel).
  intros [E|([st2 r2] & E & F)]%bind_Raise.
  - eapply search_outputs_raise; eauto.
  - apply search_outputs_frame in E as (E1 & _); [|done]. simpl in *.
    destruct (decide (n ∈ s_in_stack st2)) as [|Hn]; [done|].
    exfalso. apply Hn. rewrite E1. set_solver.
Qed.

Lemma search_inputs_raise fuel l m e :
  search_inputs h outs fuel l m = Raise e → e = cycle_error.
Proof.
  revert m. induction l as [|i l IH]; intros m; simpl; [done|].
  intros [E|(st & _ & E)]%bind_Raise; [|by eapply IH].
  by eapply search_network_raise.
Qed.

Lemma edge_all_nodes n s : edge h n s → s ∈ all_nodes h ins.
Proof.
  unfold edge, successors. intros (b & Hs & _)%list_elem_of_bind.
  unfold all_nodes. apply elem_of_union; right. apply elem_of_list_to_set.
  unfold outputs_of, hypermodel_at in Hs.
  destruct (heap_hypermodels h !! b) as [hm|] eqn:E; simpl in Hs;
    [|by apply elem_of_nil in Hs].
  apply list_elem_of_bind. exists hm. split; [done|].
  by eapply list_elem_of_lookup_2.
Qed.

Lemma input_all_nodes i : i ∈ ins → i ∈ all_nodes h ins.
Proof. intros Hi. unfold all_nodes. set_solver. Qed.

(** Fuel above the number of unvisited nodes is enough for a call. *)
Definition enough_fuel (fuel : nat)
    (rec : nat → search_state → result search_state) : Prop :=
  ∀ n st, n ∈ all_nodes h ins → n ∉ s_visited st →
    s_visited st ⊆ all_nodes h ins →
    size (all_nodes h ins ∖ s_visited st) ≤ fuel →
    rec n st ≠ OutOfFuel
    ∧ ∀ st', rec n st = Ok st' → s_visited st' ⊆ all_nodes h ins.

Lemma search_outputs_fuel fuel rec l st r :
  search_frame rec → enough_fuel fuel rec →
  (∀ s, s ∈ l → s ∈ all_nodes h ins) →
  s_visited st ⊆ all_nodes h ins →
  size (all_nodes h ins ∖ s_visited st) ≤ fuel →
  search_outputs rec l (st, r) ≠ OutOfFuel
  ∧ ∀ acc, search_outputs rec l (st, r) = Ok acc →
      s_visited acc.1 ⊆ all_nodes h ins.
Proof.
  intros Hframe Hrec. revert st r.
  induction l as [|s l IH]; intros st r Hl Hv Hsz; simpl.
  - split; [done|]. by intros acc [= <-].
  - assert (s ∈ all_nodes h ins) as Hs by (apply Hl; by left).
    destruct (search_output rec s (st, r)) as [[st1 r1]| |] eqn:E; simpl.
    + assert (s_visited st ⊆ s_visited st1) as Hgrow.
      { apply search_output_frame in E as (_ & _ & ? & _); [|done].
        set_solver. }
      assert (s_visited st1 ⊆ all_nodes h ins) as Hv1.
      { revert E. unfold search_output; simpl.
        destruct (decide (s ∈ s_in_stack st)); [done|].
        destruct (decide (s ∈ s_visited st)); simpl;
          [by intros [= <- <-]|].
        destruct (rec s st) as [st2| |] eqn:E; simpl; [|done|done].
        intros [= <- <-]. by apply (Hrec s st). }
      apply IH; [intros; apply Hl; by right | done |].
      etrans; [|exact Hsz]. apply subseteq_size. set_solver.
    + split; [done|]. done.
    + exfalso. revert E. unfold search_output; simpl.
      destruct (decide (s ∈ s_in_stack st)); [done|].
      destruct (decide (s ∈ s_visited st)); simpl; [done|].
      destruct (rec s st) as [st2| |] eqn:E; simpl; [done|done|].
      intros _. by destruct (Hrec s st).
Qed.

Lemma search_network_fuel fuel :
  enough_fuel fuel (_search_network h outs fuel).
Proof.
  induction fuel as [|fuel IH]; intros n st Hn Hnv Hv Hsz.
  - exfalso.
    assert (size (all_nodes h ins ∖ s_visited st) ≠ 0); [|lia].
    apply size_non_empty_iff. set_solver.
  - simpl. rewrite search_hypermodels_successors.
    assert (Hfr := search_network_frame h outs fuel).
    edestruct (search_outputs_fuel fuel (_search_network h outs fuel)
                 (successors h n)
                 (SearchState (s_node_to_id st) ({[n]} ∪ s_in_stack st)
                              ({[n]} ∪ s_visited st))
                 (bool_decide (n ∈ outs))) as [Hne Hsub]; auto.
    + intros s Hs. by eapply edge_all_nodes.
    + simpl. set_solver.
    + simpl.
      assert (all_nodes h ins ∖ ({[n]} ∪ s_visited st)
              ⊂ all_nodes h ins ∖ s_visited st) as Hlt%subset_size; [|lia].
      apply strict_spec_alt. split; [set_solver|].
      intros Heq. assert (n ∈ all_nodes h ins ∖ s_visited st) as Hin
        by set_solver.
      rewrite <-Heq in Hin. set_solver.
    + unfold successors in *.
      destruct (search_outputs _ _ _) as [[st2 r2]| |] eqn:E; simpl.
      * apply search_outputs_frame in E as (E1 & _); [|done]. simpl in *.
        destruct (decide (n ∈ s_in_stack st2)) as [|Hns].
        -- split; [done|]. intros st' [= <-]. simpl.
           by apply (Hsub (st2, r2)).
        -- split; [done|]. done.
      * split; done.
      * done.
Qed.

Lemma search_inputs_fuel fuel l m :
  l ⊆ ins → size (all_nodes h ins) ≤ fuel →
  search_inputs h outs fuel l m ≠ OutOfFuel.
Proof.
  intros Hl Hfuel. revert m Hl.
  induction l as [|i l IH]; intros m Hl; simpl; [done|].
  destruct (search_network_fuel fuel i (SearchState m ∅ ∅))
    as [Hne _]; simpl.
  - apply input_all_nodes, Hl. by left.
  - set_solver.
  - set_solver.
  - assert (size (all_nodes h ins ∖ ∅) ≤ size (all_nodes h ins)); [|lia].
    apply subseteq_size. set_solver.
  - destruct (_search_network _ _ _ _ _) eqn:E; simpl;
      [apply IH; set_solver | done | done].
Qed.
End search_total.

(** ** The result of the first loop of [_build_network] *)

Section search_result.
Variable h : Heap.
Variables ins outs : list nat.

Lemma search_inputs_spec fuel l m m' :
  l ⊆ ins →
  (∀ x, x ∈ dom m → on_path h ins outs x) →
  ids_ok h outs m →
  search_inputs h outs fuel l m = Ok m' →
  dom m ⊆ dom m'
  ∧ (∀ x, x ∈ dom m' → on_path h ins outs x)
  ∧ ids_ok h outs m'
  ∧ (∀ i x, i ∈ l → rtc (edge h) i x →
       (reaches_output h outs x → x ∈ dom m') ∧ ¬ on_cycle h x).
Proof.
  revert m. induction l as [|i l IH]; intros m Hl Hm Hids; simpl.
  - intros [= <-]. split; [done|]. split; [done|]. split; [done|].
    by intros ? ? ?%elem_of_nil.
  - intros (st & E & F)%bind_Ok.
    assert (i ∈ ins) as Hi by (apply Hl; by left).
    assert (search_inv h ins outs (SearchState m ∅ ∅)) as Hinv0.
    { constructor; simpl; [done | | | done | | done]; set_solver. }
    assert (from_input h ins i) as Hfrom
      by (exists i; split; [done|constructor]).
    assert (Hinv := search_network_inv h ins outs fuel i _ _ Hinv0
                      (not_elem_of_empty i) Hfrom E).
    apply search_network_frame in E as (E1 & E2 & E3). simpl in *.
    apply IH in F as (F1 & F2 & F3 & F4);
      [| set_solver | apply Hinv | apply Hinv].
    split; [set_solver|]. split; [done|]. split; [done|].
    intros i' x [->|Hi']%elem_of_cons Hr; [|by eapply F4].
    assert (i ∈ s_visited st) as Hv by set_solver.
    assert (i ∉ s_in_stack st) as Hs by set_solver.
    destruct (finished_closed h ins outs st i x Hinv Hv Hs Hr) as [Hxv Hxs].
    split; [|by apply (inv_acyclic _ _ _ _ Hinv)].
    intros Hro. apply F1. by apply (inv_exact _ _ _ _ Hinv).
Qed.
End search_result.

(** The first loop ends, with a dictionary or with the cycle error. *)
Lemma interested_nodes_total (h : Heap) (self : GraphAutoModel) :
  (∃ m, interested_nodes h self = Ok m)
  ∨ interested_nodes h self = Raise cycle_error.
Proof.
  unfold interested_nodes.
  destruct (search_inputs _ _ _ _ _) as [m|e|] eqn:E.
  - left. by exists m.
  - right. by apply search_inputs_raise in E as ->.
  - exfalso.
    apply (search_inputs_fuel h (inputs self) (outputs self)
             (search_fuel h (inputs self)) (inputs self) ∅);
      [done | unfold search_fuel; lia | done].
Qed.

(** When it ends with a dictionary, the keys are the nodes on a path from a
    declared input to a declared output, and no cycle can be reached from a
    declared input. *)
Lemma interested_nodes_spec (h : Heap) (self : GraphAutoModel) m :
  interested_nodes h self = Ok m →
  (∀ x, x ∈ dom m ↔ on_path h (inputs self) (outputs self) x)
  ∧ (∀ i x, i ∈ inputs self → rtc (edge h) i x → ¬ on_cycle h x)
  ∧ ids_ok h (outputs self) m.
Proof.
  unfold interested_nodes. intros E.
  apply (search_inputs_spec h (inputs self)) in E as (_ & E2 & E3 & E4);
    [| done | set_solver |].
  - split; [|split; [|done]].
    + intros x. split; [apply E2|]. intros [(i & Hi & Hr) Hro].
      by apply (E4 i x).
    + intros i x Hi Hr. by apply (E4 i x).
  - constructor.
    + intros x v. by rewrite lookup_empty.
    + intros x s Hx. by rewrite dom_empty_L in Hx.
    + intros x s vx vs. by rewrite lookup_empty.
Qed.

Lemma interested_nodes_cycle (h : Heap) (self : GraphAutoModel) i c :
  i ∈ inputs self → rtc (edge h) i c → on_cycle h c →
  interested_nodes h self = Raise cycle_error.
Proof.
  intros Hi Hr Hc.
  destruct (interested_nodes_total h self) as [[m E]|E]; [|done].
  apply interested_nodes_spec in E as (_ & E & _). by destruct (E i c).
Qed.

(** ** Facts on [_add_hypermodel] *)

Section add_hypermodel_facts.
Variable h : Heap.

Lemma dom_add_nodes (l : list nat) (m : gmap nat nat) :
  dom (foldl (λ m n, _add_node n m) m l) = dom m ∪ list_to_set l.
Proof.
  revert m. induction l as [|n l IH]; intros m; simpl; [set_solver|].
  rewrite IH, dom_add_node. set_solver.
Qed.

Lemma add_nodes_lookup_old (l : list nat) (m : gmap nat nat) x :
  x ∈ dom m → foldl (λ m n, _add_node n m) m l !! x = m !! x.
Proof.
  revert m. induction l as [|n l IH]; intros m Hx; simpl; [done|].
  rewrite IH; [by apply add_node_lookup_old|].
  rewrite dom_add_node. set_solver.
Qed.

Lemma check_inputs_Ok b l m :
  check_inputs h b l m = Ok () ↔ ∀ n, n ∈ l → n ∈ dom m.
Proof.
  induction l as [|n l IH]; simpl.
  - split; [by intros _ ? ?%elem_of_nil | done].
  - destruct (m !! n) as [v|] eqn:E.
    + rewrite IH. split.
      * intros Hl x [->|Hx]%elem_of_cons; [by eapply elem_of_dom_2 | auto].
      * intros Hl x Hx. apply Hl. by right.
    + split; [done|]. intros Hl. exfalso.
      apply not_elem_of_dom in E. apply E, Hl. by left.
Qed.

Lemma check_inputs_result b l m :
  check_inputs h b l m = Ok ()
  ∨ check_inputs h b l m = Raise (missing_input_error (name_of h b)).
Proof.
  induction l as [|n l IH]; simpl; [by left|].
  destruct (m !! n); [done | by right].
Qed.

Lemma check_inputs_Raise b l m e :
  check_inputs h b l m = Raise e → ∃ n, n ∈ l ∧ n ∉ dom m.
Proof.
  induction l as [|n l IH]; simpl; [done|].
  destruct (m !! n) eqn:E.
  - intros (x & ? & ?)%IH. exists x. split; [by right | done].
  - intros _. exists n. split; [by left | by apply not_elem_of_dom].
Qed.

(** The object after the first two steps of [_add_hypermodel]. *)
Definition with_hypermodel (b : nat) (self : GraphAutoModel) : GraphAutoModel :=
  let self1 :=
    if decide (b ∈ hypermodels self) then self
    else set_hypermodels (<[b := length (hypermodels self)]>
                            (hypermodel_to_id self))
                         (hypermodels self ++ [b]) self in
  set_node_to_id (foldl (λ m n, _add_node n m) (node_to_id self1)
                        (outputs_of h b)) self1.

Lemma add_hypermodel_unfold b self :
  _add_hypermodel h b self
  = check_inputs h b (inputs_of h b) (node_to_id (with_hypermodel b self))
    ≫= λ _, Ok (with_hypermodel b self).
Proof. reflexivity. Qed.

Lemma add_hypermodel_Ok b self self' :
  _add_hypermodel h b self = Ok self' ↔
  self' = with_hypermodel b self
  ∧ ∀ n, n ∈ inputs_of h b → n ∈ dom (node_to_id (with_hypermodel b self)).
Proof.
  rewrite add_hypermodel_unfold, <-(check_inputs_Ok b).
  destruct (check_inputs h b (inputs_of h b)
              (node_to_id (with_hypermodel b self))) as [[]| |]; simpl;
    split; try done.
  - by intros [= <-].
  - by intros [-> _].
  - by intros [_ ?].
  - by intros [_ ?].
Qed.

Lemma add_hypermodel_Raise b self e :
  _add_hypermodel h b self = Raise e ↔
  e = missing_input_error (name_of h b)
  ∧ ∃ n, n ∈ inputs_of h b ∧ n ∉ dom (node_to_id (with_hypermodel b self)).
Proof.
  rewrite add_hypermodel_unfold.
  destruct (check_inputs_result b (inputs_of h b)
              (node_to_id (with_hypermodel b self))) as [E|E].
  - rewrite E. simpl. split; [done|]. intros (_ & n & Hn & Hd).
    exfalso. apply Hd. by eapply check_inputs_Ok.
  - rewrite E. simpl. split.
    + intros [= <-]. split; [done|]. by eapply check_inputs_Raise.
    + by intros [-> _].
Qed.

Lemma add_hypermodel_fuel b self : _add_hypermodel h b self ≠ OutOfFuel.
Proof.
  rewrite add_hypermodel_unfold.
  by destruct (check_inputs_result b (inputs_of h b)
                 (node_to_id (with_hypermodel b self))) as [-> | ->].
Qed.

Lemma with_hypermodel_inputs b self : inputs (with_hypermodel b self) = inputs self.
Proof. unfold with_hypermodel. by destruct (decide _). Qed.

Lemma with_hypermodel_outputs b self : outputs (with_hypermodel b self) = outputs self.
Proof. unfold with_hypermodel. by destruct (decide _). Qed.

Lemma with_hypermodel_nodes b self : nodes (with_hypermodel b self) = nodes self.
Proof. unfold with_hypermodel. by destruct (decide _). Qed.

Lemma with_hypermodel_hypermodels b self :
  hypermodels (with_hypermodel b self)
  = if decide (b ∈ hypermodels self) then hypermodels self
    else hypermodels self ++ [b].
Proof. unfold with_hypermodel. by destruct (decide _). Qed.

Lemma with_hypermodel_dom b self :
  dom (node_to_id (with_hypermodel b self))
  = dom (node_to_id self) ∪ list_to_set (outputs_of h b).
Proof.
  unfold with_hypermodel. simpl. rewrite dom_add_nodes. by destruct (decide _).
Qed.

Lemma with_hypermodel_lookup_old b self x :
  x ∈ dom (node_to_id self) →
  node_to_id (with_hypermodel b self) !! x = node_to_id self !! x.
Proof.
  intros Hx. unfold with_hypermodel. simpl.
  rewrite add_nodes_lookup_old; by destruct (decide _).
Qed.
End add_hypermodel_facts.

(** ** The queue loop of [_build_network] *)

Section sort_facts.
Variable h : Heap.

(** A property of [self] that every successful [_add_hypermodel] keeps. *)
Definition kept_by_add_hypermodel (P : GraphAutoModel → Prop) : Prop :=
  ∀ b self,
    P self →
    (∀ n, n ∈ inputs_of h b → n ∈ dom (node_to_id (with_hypermodel h b self))) →
    P (with_hypermodel h b self).

Lemma enqueue_outputs_self l st :
  q_self (foldl enqueue_output st l) = q_self st.
Proof.
  revert st. induction l as [|o l IH]; intros st; simpl; [done|].
  rewrite IH. unfold enqueue_output. by destruct (decide _).
Qed.

Lemma sort_hypermodels_kept P hms st st' :
  kept_by_add_hypermodel P →
  P (q_self st) → sort_hypermodels h hms st = Ok st' → P (q_self st').
Proof.
  intros HP. revert st.
  induction hms as [|b hms IH]; intros st Hst; simpl.
  - by intros [= <-].
  - destruct (negb (any_output_known h (q_self st) b)); [by apply IH|].
    intros (self' & [-> Hin]%add_hypermodel_Ok & F)%bind_Ok.
    apply IH in F; [done|]. rewrite enqueue_outputs_self. simpl.
    by apply HP.
Qed.

Lemma sort_loop_kept P fuel st st' :
  kept_by_add_hypermodel P →
  P (q_self st) → sort_loop h fuel st = Ok st' → P (q_self st').
Proof.
  intros HP. revert st.
  induction fuel as [|fuel IH]; intros st Hst; simpl; [done|].
  destruct (q_queue st) as [|n q]; [by intros [= <-]|].
  intros (st1 & E & F)%bind_Ok.
  apply sort_hypermodels_kept with (P := P) in E; [|done|done].
  by apply IH in F.
Qed.

Lemma enqueue_inputs_spec self :
  q_self (enqueue_inputs self) = self
  ∧ q_queue (enqueue_inputs self) = inputs self
  ∧ q_visited (enqueue_inputs self) = list_to_set (inputs self).
Proof.
  unfold enqueue_inputs.
  assert (∀ l st,
    let st' := foldl (λ st n, SortState (q_self st) ({[n]} ∪ q_visited st)
                                (q_queue st ++ [n])) st l in
    q_self st' = q_self st ∧ q_queue st' = q_queue st ++ l
    ∧ q_visited st' = q_visited st ∪ list_to_set l) as Hgen.
  { induction l as [|n l IH]; intros st; simpl.
    - split; [done|]. split; [by rewrite app_nil_r | set_solver].
    - destruct (IH (SortState (q_self st) ({[n]} ∪ q_visited st)
                              (q_queue st ++ [n]))) as (E1 & E2 & E3).
      simpl in *. rewrite E1, E2, E3. split; [done|].
      split; [by rewrite <-app_assoc | set_solver]. }
  destruct (Hgen (inputs self) (SortState self ∅ [])) as (E1 & E2 & E3).
  simpl in *. rewrite E1, E2, E3. split; [done|]. split; [done|set_solver].
Qed.

(** *** Exceptions of the loop *)

Lemma sort_hypermodels_raise hms st e :
  sort_hypermodels h hms st = Raise e →
  ∃ b self n, e = missing_input_error (name_of h b)
              ∧ n ∈ inputs_of h b
              ∧ (n ∉ dom (node_to_id (with_hypermodel h b self)))
              ∧ dom (node_to_id (q_self st)) ⊆ dom (node_to_id self).
Proof.
  revert st. induction hms as [|b hms IH]; intros st; simpl; [done|].
  destruct (negb (any_output_known h (q_self st) b)); [by apply IH|].
  intros [E|(self' & [-> Hin]%add_hypermodel_Ok & F)]%bind_Raise.
  - apply add_hypermodel_Raise in E as (-> & n & Hn & Hd).
    by exists b, (q_self st), n.
  - apply IH in F as (b' & self & n & -> & Hn & Hd & Hsub).
    exists b', self, n. split; [done|]. split; [done|]. split; [done|].
    rewrite enqueue_outputs_self in Hsub. cbn [q_self] in Hsub.
    rewrite with_hypermodel_dom in Hsub. set_solver.
Qed.

Lemma sort_hypermodels_dom hms st st' :
  sort_hypermodels h hms st = Ok st' →
  dom (node_to_id (q_self st)) ⊆ dom (node_to_id (q_self st')).
Proof.
  apply (sort_hypermodels_kept
           (λ self, dom (node_to_id (q_self st)) ⊆ dom (node_to_id self)));
    [|done].
  intros b self Hs _. rewrite with_hypermodel_dom. set_solver.
Qed.

Lemma sort_loop_raise fuel st e :
  sort_loop h fuel st = Raise e →
  ∃ b self n, e = missing_input_error (name_of h b)
              ∧ n ∈ inputs_of h b
              ∧ (n ∉ dom (node_to_id (with_hypermodel h b self)))
              ∧ dom (node_to_id (q_self st)) ⊆ dom (node_to_id self).
Proof.
  revert st. induction fuel as [|fuel IH]; intros st; simpl; [done|].
  destruct (q_queue st) as [|n q]; [done|].
  intros [E|(st1 & E & F)]%bind_Raise.
  - by apply sort_hypermodels_raise in E.
  - apply sort_hypermodels_dom in E. simpl in E.
    apply IH in F as (b & self & x & -> & Hx & Hd & Hsub).
    exists b, self, x. split; [done|]. split; [done|]. split; [done|].
    set_solver.
Qed.
End sort_facts.

(** *** Fuel of the loop

    The length of the queue plus the number of nodes not yet visited never
    grows, and every iteration takes one node off the queue. *)

Section sort_total.
Variable h : Heap.
Variable ins : list nat.

Definition sort_measure (st : sort_state) : nat :=
  length (q_queue st) + size (all_nodes h ins ∖ q_visited st).

Lemma outputs_all_nodes b o : o ∈ outputs_of h b → o ∈ all_nodes h ins.
Proof.
  intros Ho. unfold all_nodes. apply elem_of_union; right.
  apply elem_of_list_to_set. unfold outputs_of, hypermodel_at in Ho.
  destruct (heap_hypermodels h !! b) as [hm|] eqn:E; simpl in Ho;
    [|by apply elem_of_nil in Ho].
  apply list_elem_of_bind. exists hm. split; [done|].
  by eapply list_elem_of_lookup_2.
Qed.

Lemma enqueue_output_measure st o :
  o ∈ all_nodes h ins →
  sort_measure (enqueue_output st o) ≤ sort_measure st.
Proof.
  intros Ho. unfold enqueue_output.
  destruct (decide _) as [[Hv _]|]; [|done].
  unfold sort_measure. simpl. rewrite length_app. simpl.
  assert (all_nodes h ins ∖ ({[o]} ∪ q_visited st)
          ⊂ all_nodes h ins ∖ q_visited st) as Hlt%subset_size; [|lia].
  apply strict_spec_alt. split; [set_solver|].
  intros Heq. assert (o ∈ all_nodes h ins ∖ q_visited st) as Hin
    by set_solver.
  rewrite <-Heq in Hin. set_solver.
Qed.

Lemma enqueue_outputs_measure l st :
  (∀ o, o ∈ l → o ∈ all_nodes h ins) →
  sort_measure (foldl enqueue_output st l) ≤ sort_measure st.
Proof.
  revert st. induction l as [|o l IH]; intros st Hl; simpl; [done|].
  etrans; [apply IH; intros; apply Hl; by right|].
  apply enqueue_output_measure, Hl. by left.
Qed.

Lemma sort_hypermodels_measure hms st st' :
  sort_hypermodels h hms st = Ok st' → sort_measure st' ≤ sort_measure st.
Proof.
  revert st. induction hms as [|b hms IH]; intros st; simpl.
  - by intros [= <-].
  - destruct (negb (any_output_known h (q_self st) b)); [by apply IH|].
    intros (self' & _ & F)%bind_Ok. apply IH in F.
    etrans; [exact F|].
    etrans; [apply enqueue_outputs_measure; intros o;
             apply outputs_all_nodes|].
    done.
Qed.

Lemma sort_hypermodels_fuel hms st : sort_hypermodels h hms st ≠ OutOfFuel.
Proof.
  revert st. induction hms as [|b hms IH]; intros st; simpl; [done|].
  destruct (negb (any_output_known h (q_self st) b)); [by apply IH|].
  intros [E|(self' & _ & F)]%bind_OutOfFuel.
  - by apply add_hypermodel_fuel in E.
  - by apply IH in F.
Qed.

Lemma sort_loop_fuel fuel st :
  sort_measure st < fuel → sort_loop h fuel st ≠ OutOfFuel.
Proof.
  revert st. induction fuel as [|fuel IH]; intros st Hm; simpl; [lia|].
  destruct (q_queue st) as [|n q] eqn:Eq; [done|].
  intros [E|(st1 & E & F)]%bind_OutOfFuel.
  - by apply sort_hypermodels_fuel in E.
  - apply sort_hypermodels_measure in E. apply IH in F; [done|].
    unfold sort_measure in *. rewrite Eq in Hm. simpl in *. lia.
Qed.
End sort_total.

Lemma sorted_hypermodels_fuel (h : Heap) (self : GraphAutoModel) :
  sorted_hypermodels h self ≠ OutOfFuel.
Proof.
  unfold sorted_hypermodels.
  intros [E|(st & _ & F)]%bind_OutOfFuel; [|done].
  revert E. apply (sort_loop_fuel h (inputs self)).
  destruct (enqueue_inputs_spec (set_hypermodels ∅ [] self)) as (_ & E2 & E3).
  unfold sort_measure, sort_fuel. rewrite E2, E3. simpl.
  assert (size (all_nodes h (inputs self) ∖ list_to_set (inputs self))
          ≤ size (all_nodes h (inputs self))); [|lia].
  apply subseteq_size. set_solver.
Qed.

(** *** What the loop keeps *)

(** The state of [self] during the queue loop, relative to [self0], the object
    the loop started from with an empty list of hypermodels. *)
Record sort_inv (h : Heap) (self0 self : GraphAutoModel) : Prop := SortInv {
  sort_inputs : inputs self = inputs self0;
  sort_outputs : outputs self = outputs self0;
  sort_nodes : nodes self = nodes self0;
  sort_dom : ∀ x, x ∈ dom (node_to_id self) ↔
               x ∈ dom (node_to_id self0)
               ∨ ∃ b, b ∈ hypermodels self ∧ x ∈ outputs_of h b;
  sort_old : ∀ x, x ∈ dom (node_to_id self0) →
               node_to_id self !! x = node_to_id self0 !! x;
  sort_known : ∀ b n, b ∈ hypermodels self → n ∈ inputs_of h b →
                 n ∈ dom (node_to_id self);
  sort_nodup : NoDup (hypermodels self)
}.

Lemma elem_of_with_hypermodel (h : Heap) b b' self :
  b' ∈ hypermodels (with_hypermodel h b self)
  ↔ b' ∈ hypermodels self ∨ b' = b.
Proof.
  rewrite with_hypermodel_hypermodels.
  destruct (decide (b ∈ hypermodels self)); [|set_solver].
  split; [by left|]. by intros [?| ->].
Qed.

Lemma sort_inv_kept (h : Heap) (self0 : GraphAutoModel) :
  kept_by_add_hypermodel h (sort_inv h self0).
Proof.
  intros b self [I1 I2 I3 I4 I5 I6 I7] Hin. constructor.
  - by rewrite with_hypermodel_inputs.
  - by rewrite with_hypermodel_outputs.
  - by rewrite with_hypermodel_nodes.
  - intros x. rewrite with_hypermodel_dom, elem_of_union, I4.
    rewrite elem_of_list_to_set. split.
    + intros [[?|(b' & Hb' & Hx)]|Hx]; [by left | |].
      * right. exists b'. split; [|done].
        apply elem_of_with_hypermodel. by left.
      * right. exists b. split; [|done].
        apply elem_of_with_hypermodel. by right.
    + intros [?|(b' & [Hb'| ->]%elem_of_with_hypermodel & Hx)].
      * left. by left.
      * left. right. by exists b'.
      * by right.
  - intros x Hx. rewrite with_hypermodel_lookup_old; [by apply I5|].
    apply I4. by left.
  - intros b' n [Hb'| ->]%elem_of_with_hypermodel Hn; [|by apply Hin].
    rewrite with_hypermodel_dom. apply elem_of_union; left. by eapply I6.
  - rewrite with_hypermodel_hypermodels.
    destruct (decide (b ∈ hypermodels self)); [done|].
    apply NoDup_app. split; [done|]. split; [|apply NoDup_singleton].
    intros x Hx ->%list_elem_of_singleton. done.
Qed.

Lemma sorted_hypermodels_inv (h : Heap) (self self' : GraphAutoModel) :
  sorted_hypermodels h self = Ok self' → sort_inv h self self'.
Proof.
  unfold sorted_hypermodels. intros (st & E & [= <-])%bind_Ok.
  apply (sort_loop_kept h (sort_inv h self)) in E;
    [done | apply sort_inv_kept |].
  destruct (enqueue_inputs_spec (set_hypermodels ∅ [] self)) as (-> & _).
  constructor; simpl; try done.
  - intros x. split; [by left|]. intros [?|(b & Hb & _)]; [done|].
    by apply elem_of_nil in Hb.
  - intros b n Hb. by apply elem_of_nil in Hb.
  - apply NoDup_nil_2.
Qed.

Lemma sorted_hypermodels_raise (h : Heap) (self : GraphAutoModel) e :
  sorted_hypermodels h self = Raise e →
  ∃ b n, e = missing_input_error (name_of h b)
         ∧ n ∈ inputs_of h b ∧ n ∉ dom (node_to_id self).
Proof.
  unfold sorted_hypermodels. intros [E|(st & _ & ?)]%bind_Raise; [|done].
  apply sort_loop_raise in E as (b & self1 & n & -> & Hn & Hd & Hsub).
  exists b, n. split; [done|]. split; [done|].
  destruct (enqueue_inputs_spec (set_hypermodels ∅ [] self)) as (E1 & _).
  rewrite E1 in Hsub. simpl in Hsub.
  rewrite with_hypermodel_dom in Hd. set_solver.
Qed.

(** ** The connectivity check and the last loop of [_build_network] *)

Lemma check_connected_Ok (l : list nat) (m : gmap nat nat) :
  check_connected l m = Ok () ↔ ∀ n, n ∈ l → n ∈ dom m.
Proof.
  induction l as [|n l IH]; simpl.
  - split; [by intros _ ? ?%elem_of_nil | done].
  - destruct (m !! n) as [v|] eqn:E.
    + rewrite IH. split.
      * intros Hl x [->|Hx]%elem_of_cons; [by eapply elem_of_dom_2 | auto].
      * intros Hl x Hx. apply Hl. by right.
    + split; [done|]. intros Hl. exfalso.
      apply not_elem_of_dom in E. apply E, Hl. by left.
Qed.

Lemma check_connected_result (l : list nat) (m : gmap nat nat) :
  check_connected l m = Ok () ∨ check_connected l m = Raise disconnected_error.
Proof.
  induction l as [|n l IH]; simpl; [by left|].
  destruct (m !! n); [done | by right].
Qed.

Lemma check_connected_Raise (l : list nat) (m : gmap nat nat) n :
  n ∈ l → n ∉ dom m → check_connected l m = Raise disconnected_error.
Proof.
  intros Hn Hd. destruct (check_connected_result l m) as [E|E]; [|done].
  exfalso. apply Hd. by eapply check_connected_Ok.
Qed.

Lemma set_output_shape_nodes b s h n :
  node_at (set_output_shape b s h) n = node_at h n.
Proof. reflexivity. Qed.

Lemma set_output_shapes_Ok (l : list nat) (h : Heap) :
  (∀ o, o ∈ l → in_hypermodels_of h o ≠ []) →
  ∃ h', set_output_shapes l h = Ok h'.
Proof.
  revert h. induction l as [|o l IH]; intros h Hl; simpl; [by eexists|].
  destruct (in_hypermodels_of h o) as [|b bs] eqn:E.
  - exfalso. by apply (Hl o); [left|].
  - apply IH. intros o' Ho'. apply (Hl o'). by right.
Qed.

Lemma set_output_shapes_Raise (l : list nat) (h : Heap) o :
  o ∈ l → in_hypermodels_of h o = [] →
  set_output_shapes l h = Raise IndexError.
Proof.
  revert h. induction l as [|o' l IH]; intros h Ho E; simpl;
    [by apply elem_of_nil in Ho|].
  destruct (in_hypermodels_of h o') as [|b bs] eqn:E'; [done|].
  apply elem_of_cons in Ho as [->|Ho]; [congruence|].
  by apply IH.
Qed.

Lemma set_output_shapes_result (l : list nat) (h : Heap) :
  (∃ h', set_output_shapes l h = Ok h')
  ∨ set_output_shapes l h = Raise IndexError.
Proof.
  revert h. induction l as [|o l IH]; intros h; simpl; [left; by eexists|].
  destruct (in_hypermodels_of h o) as [|b bs]; [by right | apply IH].
Qed.

(** ** [_build_network] as the sequence of its four steps *)

(** [self] after the first loop, with [self.nodes] set. *)
Definition searched (m : gmap nat nat) (self : GraphAutoModel)
  : GraphAutoModel :=
  set_nodes (sorted_nodes m) (set_node_to_id m self).

Lemma build_network_unfold (h : Heap) (self : GraphAutoModel) :
  _build_network h self
  = m ← interested_nodes h self;
    _ ← check_connected (inputs self ++ outputs self) m;
    self2 ← sorted_hypermodels h (searched m self);
    h' ← set_output_shapes (outputs self2) h;
    Ok (h', self2).
Proof. reflexivity. Qed.

Lemma build_network_Ok (h h' : Heap) (self self' : GraphAutoModel) :
  _build_network h self = Ok (h', self') ↔
  ∃ m, interested_nodes h self = Ok m
       ∧ check_connected (inputs self ++ outputs self) m = Ok ()
       ∧ sorted_hypermodels h (searched m self) = Ok self'
       ∧ set_output_shapes (outputs self') h = Ok h'.
Proof.
  rewrite build_network_unfold. split.
  - intros (m & E1 & E)%bind_Ok. exists m. split; [done|].
    apply bind_Ok in E as ([] & E2 & E). split; [done|].
    apply bind_Ok in E as (self2 & E3 & E).
    apply bind_Ok in E as (h2 & E4 & [= <- <-]). done.
  - intros (m & -> & E2 & E3 & E4).
    cbn [mbind result_mbind result_bind]. rewrite E2.
    cbn [mbind result_mbind result_bind]. rewrite E3.
    cbn [mbind result_mbind result_bind]. by rewrite E4.
Qed.

(** [_build_network] always returns or raises. *)
Lemma build_network_fuel (h : Heap) (self : GraphAutoModel) :
  _build_network h self ≠ OutOfFuel.
Proof.
  rewrite build_network_unfold.
  destruct (interested_nodes_total h self) as [[m ->]| ->]; [|done].
  cbn [mbind result_mbind result_bind].
  destruct (check_connected_result (inputs self ++ outputs self) m)
    as [-> | ->]; [|done].
  cbn [mbind result_mbind result_bind].
  destruct (sorted_hypermodels h (searched m self)) as [self2| |] eqn:E;
    cbn [mbind result_mbind result_bind];
    [|done|by apply sorted_hypermodels_fuel in E].
  by destruct (set_output_shapes_result (outputs self2) h)
    as [[h' ->]| ->].
Qed.

(** ** Declared topologies used below

    Each store lists its nodes and hypermodels in creation order; a
    hypermodel's call appends it to the [out_hypermodels] of its inputs and to
    the [in_hypermodels] of its outputs. *)

Definition node (ins outs : list nat) : HyperNode.t :=
  HyperNode.mk None ins outs.

Definition block (nm : string) (ins outs : list nat) : HyperModel.t :=
  HyperModel.mk nm ins outs None OtherHyperModel.

(** A fresh [GraphAutoModel] object, as [__init__] has it before the call of
    [_build_network]. *)
Definition declared (ins outs : list nat) : GraphAutoModel :=
  {| inputs := ins; outputs := outs; node_to_id := ∅; nodes := [];
     hypermodel_to_id := ∅; hypermodels := [] |}.

(** input 0 -> block 0 -> output 1 *)
Definition chain_heap (nm : string) (s0 s1 : option (list nat)) (c : hm_class)
  : Heap :=
  {| heap_nodes := [HyperNode.mk s0 [] [0]; HyperNode.mk s1 [0] []];
     heap_hypermodels := [HyperModel.mk nm [0] [1] None c] |}.

(** input 0 -> block 0 -> output 1, and output 1 -> block 1 -> input 0 *)
Definition cycle_heap : Heap :=
  {| heap_nodes := [node [1] [0]; node [0] [1]];
     heap_hypermodels := [block "A" [0] [1]; block "B" [1] [0]] |}.

(** input 0 -> block 0 -> nodes 1 and 2; only node 1 is a declared output *)
Definition fork_heap : Heap :=
  {| heap_nodes := [node [] [0]; node [0] []; node [0] []];
     heap_hypermodels := [block "split" [0] [1; 2]] |}.

(** input 0 -> block 0 -> 1 -> block 1 -> 2, and block 2 merges the input 0
    with node 2 into the output 3 (a skip connection).  Block 2 is called
    last, so node 0 lists block 0 before block 2. *)
Definition skip_heap : Heap :=
  {| heap_nodes := [node [] [0; 2]; node [0] [1]; node [1] [2]; node [2] []];
     heap_hypermodels :=
       [block "b1" [0] [1]; block "b2" [1] [2]; block "merge" [0; 2] [3]] |}.

(** A single node with no hypermodel, declared as input and as output. *)
Definition lone_heap : Heap :=
  {| heap_nodes := [node [] []]; heap_hypermodels := [] |}.


(** Two inputs 0 and 2; only input 0 leads to the output 1. *)
Definition idle_input_heap : Heap :=
  {| heap_nodes := [node [] [0]; node [0] []; node [] []];
     heap_hypermodels := [block "dense" [0] [1]] |}.

(** ** Cycles (claim C3) *)

(** C3. When a directed cycle of the declared topology can be reached from a
    declared input, [_build_network] raises
    [ValueError("The network has a cycle.")]: the result is the exception, and
    carries neither a [node_to_id] nor a list of hypermodels. *)
Theorem C3_cycle_raises_cycle_error (h : Heap) (self : GraphAutoModel) i c :
  i ∈ inputs self → rtc (edge h) i c → on_cycle h c →
  _build_network h self = Raise cycle_error.
Proof.
  intros Hi Hr Hc. rewrite build_network_unfold.
  by rewrite (interested_nodes_cycle h self i c Hi Hr Hc).
Qed.

Lemma C3_cycle_witness :
  0 ∈ inputs (declared [0] [1])
  ∧ rtc (edge cycle_heap) 0 0
  ∧ on_cycle cycle_heap 0
  ∧ _build_network cycle_heap (declared [0] [1]) = Raise cycle_error.
Proof.
  assert (H1 : 0 ∈ inputs (declared [0] [1])) by (simpl; left).
  assert (H2 : rtc (edge cycle_heap) 0 0) by constructor.
  assert (H3 : on_cycle cycle_heap 0).
  { apply tc_l with 1; [|apply tc_once]; vm_compute; left. }
  split; [exact H1|]. split; [exact H2|]. split; [exact H3|].
  exact (C3_cycle_raises_cycle_error cycle_heap (declared [0] [1]) 0 0
           H1 H2 H3).
Defined.

(** ** The connectivity check (claim C5) *)

Lemma missing_input_not_disconnected nm :
  missing_input_error nm ≠ disconnected_error.
Proof. unfold missing_input_error, disconnected_error. simpl. by intros [=]. Qed.

(** C5. Let the first loop of [_build_network] end with the dictionary [m].
    If a declared input or output has no identifier in [m], the construction
    fails with [ValueError("Inputs and outputs not connected.")]; this is the
    case when a declared output cannot be reached from any declared input, and
    when a declared input leads to no declared output.  If every declared
    input and output has an identifier, the check passes and the construction
    does not fail with that error. *)
Theorem C5_connectivity_check (h : Heap) (self : GraphAutoModel) m :
  interested_nodes h self = Ok m →
  ((∃ n, n ∈ inputs self ++ outputs self ∧ n ∉ dom m) →
     _build_network h self = Raise disconnected_error)
  ∧ ((∃ o, o ∈ outputs self ∧ ¬ from_input h (inputs self) o) →
       _build_network h self = Raise disconnected_error)
  ∧ ((∃ i, i ∈ inputs self ∧ ¬ reaches_output h (outputs self) i) →
       _build_network h self = Raise disconnected_error)
  ∧ ((∀ n, n ∈ inputs self ++ outputs self → n ∈ dom m) →
       check_connected (inputs self ++ outputs self) m = Ok ()
       ∧ _build_network h self ≠ Raise disconnected_error).
Proof.
  intros E.
  assert (Hfail : ∀ n, n ∈ inputs self ++ outputs self → n ∉ dom m →
                       _build_network h self = Raise disconnected_error).
  { intros n Hn Hd. rewrite build_network_unfold, E.
    cbn [mbind result_mbind result_bind].
    by rewrite (check_connected_Raise _ _ n Hn Hd). }
  destruct (interested_nodes_spec h self m E) as (Hdom & _ & _).
  split; [|split; [|split]].
  - intros (n & Hn & Hd). by eapply Hfail.
  - intros (o & Ho & Hno). apply (Hfail o); [set_solver|].
    intros [Hfrom _]%Hdom. done.
  - intros (i & Hi & Hno). apply (Hfail i); [set_solver|].
    intros [_ Hreach]%Hdom. done.
  - intros Hall. assert (Hc := proj2 (check_connected_Ok _ _) Hall).
    split; [done|]. rewrite build_network_unfold, E.
    cbn [mbind result_mbind result_bind]. rewrite Hc.
    cbn [mbind result_mbind result_bind].
    destruct (sorted_hypermodels h (searched m self)) as [self2|e|] eqn:E2;
      cbn [mbind result_mbind result_bind]; [| |done].
    + by destruct (set_output_shapes_result (outputs self2) h)
        as [[h' ->]| ->].
    + apply sorted_hypermodels_raise in E2 as (b & n & -> & _).
      intros Habs. apply (missing_input_not_disconnected (name_of h b)).
      congruence.
Qed.

Lemma C5_connectivity_check_witness :
  interested_nodes idle_input_heap (declared [0; 2] [1])
  = Ok {[1 := 0; 0 := 1]}
  ∧ _build_network idle_input_heap (declared [0; 2] [1])
    = Raise disconnected_error.
Proof.
  assert (E : interested_nodes idle_input_heap (declared [0; 2] [1])
              = Ok {[1 := 0; 0 := 1]}) by (vm_compute; reflexivity).
  split; [exact E|].
  apply (proj1 (C5_connectivity_check idle_input_heap
                  (declared [0; 2] [1]) _ E)).
  exists 2. split; [simpl; right; left |].
  apply not_elem_of_dom. vm_compute. reflexivity.
Defined.

(** ** The last loop of [_build_network] (claim C10) *)

(** C10. The last loop reads [output_node.in_hypermodels[0]] for every
    declared output with no guard.  Once the search, the connectivity check
    and the queue loop have passed: if every declared output has a producing
    hypermodel, the reads succeed and [_build_network] returns the resolved
    object; if some declared output has none, [_build_network] raises
    [IndexError].  A node declared as input and as output, with no hypermodel,
    passes the connectivity check and raises [IndexError]. *)
Theorem C10_unguarded_first_producer (h : Heap) (self self2 : GraphAutoModel)
    m :
  interested_nodes h self = Ok m →
  check_connected (inputs self ++ outputs self) m = Ok () →
  sorted_hypermodels h (searched m self) = Ok self2 →
  ((∀ o, o ∈ outputs self → in_hypermodels_of h o ≠ []) →
     ∃ h', _build_network h self = Ok (h', self2))
  ∧ ((∃ o, o ∈ outputs self ∧ in_hypermodels_of h o = []) →
       _build_network h self = Raise IndexError)
  ∧ (∃ m0, interested_nodes lone_heap (declared [0] [0]) = Ok m0
           ∧ check_connected ([0] ++ [0]) m0 = Ok ()
           ∧ _build_network lone_heap (declared [0] [0]) = Raise IndexError).
Proof.
  intros E1 E2 E3.
  assert (Hout : outputs self2 = outputs self).
  { apply sorted_hypermodels_inv in E3. by rewrite (sort_outputs _ _ _ E3). }
  assert (Hrun : _build_network h self
                 = set_output_shapes (outputs self) h
                   ≫= λ h', Ok (h', self2)).
  { rewrite build_network_unfold, E1.
    cbn [mbind result_mbind result_bind]. rewrite E2.
    cbn [mbind result_mbind result_bind]. rewrite E3.
    cbn [mbind result_mbind result_bind]. by rewrite Hout. }
  split; [|split].
  - intros Hall. destruct (set_output_shapes_Ok _ h Hall) as [h' Hh'].
    exists h'. by rewrite Hrun, Hh'.
  - intros (o & Ho & Hnil).
    by rewrite Hrun, (set_output_shapes_Raise _ h o Ho Hnil).
  - exists {[0 := 0]}. by vm_compute.
Qed.

Lemma C10_unguarded_witness :
  interested_nodes (chain_heap "dense" None None OtherHyperModel)
                   (declared [0] [1]) = Ok {[1 := 0; 0 := 1]}
  ∧ ∃ h', _build_network (chain_heap "dense" None None OtherHyperModel)
                         (declared [0] [1])
          = Ok (h', {| inputs := [0]; outputs := [1];
                       node_to_id := {[1 := 0; 0 := 1]}; nodes := [1; 0];
                       hypermodel_to_id := {[0 := 0]};
                       hypermodels := [0] |}).
Proof.
  assert (E1 : interested_nodes (chain_heap "dense" None None OtherHyperModel)
                 (declared [0] [1]) = Ok {[1 := 0; 0 := 1]})
    by (vm_compute; reflexivity).
  split; [exact E1|].
  refine (proj1 (C10_unguarded_first_producer
                   (chain_heap "dense" None None OtherHyperModel)
                   (declared [0] [1]) _ _ E1 _ _) _).
  - vm_compute. reflexivity.
  - vm_compute. reflexivity.
  - intros o Ho. simpl in Ho.
    apply list_elem_of_singleton in Ho as ->. vm_compute. discriminate.
Defined.

(** ** The order of the hypermodels (claim C1) *)

(** The order of the claim: whatever produces an input of a hypermodel
    stands strictly before the hypermodel. *)
Definition producers_first (h : Heap) (l : list nat) : Prop :=
  ∀ i j b p n,
    l !! i = Some b → l !! j = Some p →
    n ∈ inputs_of h b → n ∈ outputs_of h p → j < i.

Lemma increasing_edges_acyclic (h : Heap) :
  (∀ n m, edge h n m → n < m) → acyclic h.
Proof.
  intros Hlt n Hc. unfold on_cycle in Hc.
  assert (∀ x y, tc (edge h) x y → x < y) as Htc.
  { intros x y Hxy. induction Hxy as [x y He|x y z He _ IH].
    - by apply Hlt.
    - apply Hlt in He. lia. }
  apply Htc in Hc. lia.
Qed.

Lemma skip_heap_edges n m : edge skip_heap n m → n < m.
Proof.
  unfold edge. destruct n as [|[|[|n]]]; vm_compute; intros H.
  - inversion H as [|? ? ? H1]; subst; [lia|].
    inversion H1 as [|? ? ? H2]; subst; [lia|]. inversion H2.
  - inversion H as [|? ? ? H1]; subst; [lia|]. inversion H1.
  - inversion H as [|? ? ? H1]; subst; [lia|]. inversion H1.
  - destruct n; inversion H.
Qed.

(** C1 fails on a skip connection.  The store is acyclic and its declared
    output is reachable from its declared input; [_build_network] returns,
    with the merging hypermodel 2 placed before hypermodel 1, which produces
    its input node 2. *)
Theorem C1_skip_connection_order :
  acyclic skip_heap
  ∧ from_input skip_heap [0] 3
  ∧ ∃ h' self',
      _build_network skip_heap (declared [0] [3]) = Ok (h', self')
      ∧ hypermodels self' = [0; 2; 1]
      ∧ 2 ∈ inputs_of skip_heap 2
      ∧ 2 ∈ outputs_of skip_heap 1
      ∧ ¬ producers_first skip_heap (hypermodels self').
Proof.
  split; [apply increasing_edges_acyclic, skip_heap_edges|].
  split.
  { exists 0. split; [left|]. apply rtc_once. vm_compute. right. left. }
  eexists _, _. split; [vm_compute; reflexivity|]. simpl.
  split; [done|].
  assert (H1 : 2 ∈ inputs_of skip_heap 2) by (vm_compute; right; left).
  assert (H2 : 2 ∈ outputs_of skip_heap 1) by (vm_compute; left).
  split; [done|]. split; [done|].
  intros Hpf. specialize (Hpf 1 2 2 1 2 eq_refl eq_refl H1 H2). lia.
Qed.

(** ** The keys of [node_to_id] (claim C2) *)

(** The claim C2 fails on a hypermodel with two outputs of which one is
    declared: the other output gets an identifier, and leads to no declared
    output. *)
Lemma C2_second_output_counterexample :
  ∃ h' self',
    _build_network fork_heap (declared [0] [1]) = Ok (h', self')
    ∧ node_to_id self' !! 2 = Some 2
    ∧ ¬ on_path fork_heap [0] [1] 2.
Proof.
  eexists _, _. split; [vm_compute; reflexivity|]. simpl.
  split; [vm_compute; reflexivity|].
  intros [_ (o & Ho & Hr)].
  apply rtc_inv in Hr as [<-|(s & He & _)].
  - apply list_elem_of_singleton in Ho. discriminate.
  - vm_compute in He. inversion He.
Qed.

(** C2, amended.  After [_build_network] the keys of [node_to_id] are the
    nodes on a path from a declared input to a declared output, and the
    outputs of the hypermodels of the resolved order.  The keys that the
    search assigns (the first loop) are exactly the nodes on such a path, and
    keep their identifiers. *)
Theorem C2_node_to_id_keys (h h' : Heap) (self self' : GraphAutoModel) :
  _build_network h self = Ok (h', self') →
  (∀ x, x ∈ dom (node_to_id self') ↔
        on_path h (inputs self) (outputs self) x
        ∨ ∃ b, b ∈ hypermodels self' ∧ x ∈ outputs_of h b)
  ∧ ∃ m, interested_nodes h self = Ok m
         ∧ (∀ x, x ∈ dom m ↔ on_path h (inputs self) (outputs self) x)
         ∧ (∀ x, x ∈ dom m → node_to_id self' !! x = m !! x).
Proof.
  intros (m & E1 & _ & E3 & _)%build_network_Ok.
  destruct (interested_nodes_spec h self m E1) as (Hdom & _ & _).
  apply sorted_hypermodels_inv in E3. split.
  - intros x. rewrite (sort_dom _ _ _ E3 x). simpl. by rewrite Hdom.
  - exists m. split; [done|]. split; [done|].
    intros x Hx. by apply (sort_old _ _ _ E3).
Qed.

Lemma C2_node_to_id_keys_witness :
  ∃ h' self',
    _build_network fork_heap (declared [0] [1]) = Ok (h', self')
    ∧ ∀ x, x ∈ dom (node_to_id self') ↔
           on_path fork_heap [0] [1] x
           ∨ ∃ b, b ∈ hypermodels self' ∧ x ∈ outputs_of fork_heap b.
Proof.
  eexists _, _.
  assert (E : ∀ r, r = _build_network fork_heap (declared [0] [1]) →
                   _build_network fork_heap (declared [0] [1]) = r)
    by (by intros r ->).
  split.
  - apply E. vm_compute. reflexivity.
  - refine (proj1 (C2_node_to_id_keys fork_heap _ (declared [0] [1]) _ _)).
    vm_compute. reflexivity.
Defined.

(** ** The identifiers of the nodes (claim C4) *)

(** The claim C4 fails on its own scenario: the output node 1 gets the
    identifier 0 and the input node 0 gets the identifier 1. *)
Lemma C4_chain_counterexample :
  ∃ h' self',
    _build_network (chain_heap "identity" None None OtherHyperModel)
                   (declared [0] [1]) = Ok (h', self')
    ∧ node_to_id self' !! 0 = Some 1
    ∧ node_to_id self' !! 1 = Some 0
    ∧ node_to_id self' ≠ {[0 := 0; 1 := 1]}.
Proof.
  eexists _, _. split; [vm_compute; reflexivity|]. simpl.
  split; [vm_compute; reflexivity|]. split; [vm_compute; reflexivity|].
  intros Heq. apply (f_equal (λ m : gmap nat nat, m !! 0)) in Heq.
  vm_compute in Heq. discriminate.
Qed.

(** C4, amended.  For a single input node connected by a single hypermodel
    to a single output node, [_build_network] assigns 0 to the output node and
    1 to the input node, and the order is that one hypermodel.  In general
    the search numbers a node when its call returns (depth-first post-order):
    of two nodes on paths from a declared input to a declared output, joined
    by an edge, the source has the larger identifier. *)
Theorem C4_identifiers_in_post_order :
  (∀ nm s0 s1 c,
     ∃ h', _build_network (chain_heap nm s0 s1 c) (declared [0] [1])
           = Ok (h', {| inputs := [0]; outputs := [1];
                        node_to_id := {[1 := 0; 0 := 1]}; nodes := [1; 0];
                        hypermodel_to_id := {[0 := 0]};
                        hypermodels := [0] |}))
  ∧ (∀ h h' self self' x s vx vs,
       _build_network h self = Ok (h', self') →
       on_path h (inputs self) (outputs self) x →
       on_path h (inputs self) (outputs self) s →
       edge h x s →
       node_to_id self' !! x = Some vx → node_to_id self' !! s = Some vs →
       vs < vx).
Proof.
  split.
  - intros nm s0 s1 c. eexists. vm_compute. reflexivity.
  - intros h h' self self' x s vx vs
      (m & E1 & _ & E3 & _)%build_network_Ok Hx Hs He Hvx Hvs.
    destruct (interested_nodes_spec h self m E1) as (Hdom & _ & Hids).
    apply sorted_hypermodels_inv in E3.
    apply Hdom in Hx, Hs.
    rewrite (sort_old _ _ _ E3 x) in Hvx by done.
    rewrite (sort_old _ _ _ E3 s) in Hvs by done.
    by eapply (ids_order _ _ _ Hids x s).
Qed.

Lemma C4_identifiers_witness :
  ∃ h' self',
    _build_network skip_heap (declared [0] [3]) = Ok (h', self')
    ∧ on_path skip_heap [0] [3] 2
    ∧ on_path skip_heap [0] [3] 3
    ∧ edge skip_heap 2 3
    ∧ node_to_id self' !! 2 = Some 1
    ∧ node_to_id self' !! 3 = Some 0
    ∧ 0 < 1.
Proof.
  assert (E01 : edge skip_heap 0 1) by (vm_compute; left).
  assert (E12 : edge skip_heap 1 2) by (vm_compute; left).
  assert (E23 : edge skip_heap 2 3) by (vm_compute; left).
  assert (P2 : on_path skip_heap [0] [3] 2).
  { split.
    - exists 0. split; [left|]. by apply rtc_l with 1; [|apply rtc_once].
    - exists 3. split; [left|]. by apply rtc_once. }
  assert (P3 : on_path skip_heap [0] [3] 3).
  { split.
    - exists 0. split; [left|].
      apply rtc_l with 1; [done|]. by apply rtc_l with 2; [|apply rtc_once].
    - exists 3. split; [left | constructor]. }
  assert (R : ∃ h' self',
             _build_network skip_heap (declared [0] [3]) = Ok (h', self')
             ∧ node_to_id self' !! 2 = Some 1
             ∧ node_to_id self' !! 3 = Some 0).
  { eexists _, _. split; [vm_compute; reflexivity|].
    split; vm_compute; reflexivity. }
  destruct R as (h' & self' & R1 & R2 & R3).
  exists h', self'. split; [exact R1|]. split; [exact P2|].
  split; [exact P3|]. split; [exact E23|]. split; [exact R2|].
  split; [exact R3|].
  exact (proj2 C4_identifiers_in_post_order skip_heap h' (declared [0] [3])
           self' 2 3 1 0 R1 P2 P3 E23 R2 R3).
Defined.

(** ** Resolution depends on the declared topology only (claim C8) *)

(** Two stores declare the same topology when every node has the same lists
    of hypermodels and every hypermodel the same name and lists of nodes; the
    shapes may differ. *)
Record same_topology (h1 h2 : Heap) : Prop := SameTopology {
  topo_out : ∀ n, out_hypermodels_of h1 n = out_hypermodels_of h2 n;
  topo_in : ∀ n, in_hypermodels_of h1 n = in_hypermodels_of h2 n;
  topo_outputs : ∀ b, outputs_of h1 b = outputs_of h2 b;
  topo_inputs : ∀ b, inputs_of h1 b = inputs_of h2 b;
  topo_name : ∀ b, name_of h1 b = name_of h2 b
}.

Lemma same_topology_sym h1 h2 : same_topology h1 h2 → same_topology h2 h1.
Proof. intros [T1 T2 T3 T4 T5]. by constructor. Qed.

Lemma same_topology_trans h1 h2 h3 :
  same_topology h1 h2 → same_topology h2 h3 → same_topology h1 h3.
Proof.
  intros [T1 T2 T3 T4 T5] [U1 U2 U3 U4 U5].
  constructor; intros; etrans; eauto.
Qed.

Lemma elem_of_all_nodes (h : Heap) (ins : list nat) x :
  x ∈ all_nodes h ins ↔ x ∈ ins ∨ ∃ b, x ∈ outputs_of h b.
Proof.
  unfold all_nodes. rewrite elem_of_union, !elem_of_list_to_set.
  rewrite list_elem_of_bind. split.
  - intros [?|(hm & Hx & Hhm)]; [by left|]. right.
    apply list_elem_of_lookup in Hhm as [b Hb]. exists b.
    unfold outputs_of, hypermodel_at. by rewrite Hb.
  - intros [?|[b Hx]]; [by left|]. right.
    unfold outputs_of, hypermodel_at in Hx.
    destruct (heap_hypermodels h !! b) as [hm|] eqn:E; simpl in Hx;
      [|by apply elem_of_nil in Hx].
    exists hm. split; [done|]. by eapply list_elem_of_lookup_2.
Qed.

Section topology.
Variables h1 h2 : Heap.
Hypothesis T : same_topology h1 h2.

Lemma all_nodes_topology ins : all_nodes h1 ins = all_nodes h2 ins.
Proof.
  apply set_eq. intros x. rewrite !elem_of_all_nodes.
  split; (intros [?|[b Hb]]; [by left|]; right; exists b).
  - by rewrite <-(topo_outputs _ _ T).
  - by rewrite (topo_outputs _ _ T).
Qed.

Lemma successors_topology n : successors h1 n = successors h2 n.
Proof.
  unfold successors. rewrite (topo_out _ _ T).
  apply list_bind_ext; [apply (topo_outputs _ _ T) | done].
Qed.

Lemma search_outputs_ext rec1 rec2 l acc :
  (∀ n st, rec1 n st = rec2 n st) →
  search_outputs rec1 l acc = search_outputs rec2 l acc.
Proof.
  intros Hrec. revert acc. induction l as [|s l IH]; intros acc; simpl;
    [done|].
  unfold search_output. destruct (decide _); [done|].
  destruct (decide _); simpl; [apply IH|].
  rewrite Hrec. destruct (rec2 s acc.1); simpl; [apply IH | done | done].
Qed.

Lemma search_network_topology outs fuel n st :
  _search_network h1 outs fuel n st = _search_network h2 outs fuel n st.
Proof.
  revert n st. induction fuel as [|fuel IH]; intros n st; simpl; [done|].
  rewrite !search_hypermodels_successors.
  fold (successors h1 n). fold (successors h2 n).
  rewrite successors_topology.
  by rewrite (search_outputs_ext _ (_search_network h2 outs fuel)).
Qed.

Lemma search_inputs_topology outs fuel l m :
  search_inputs h1 outs fuel l m = search_inputs h2 outs fuel l m.
Proof.
  revert m. induction l as [|i l IH]; intros m; simpl; [done|].
  rewrite search_network_topology.
  destruct (_search_network h2 outs fuel i _); simpl; [apply IH|done|done].
Qed.

Lemma interested_nodes_topology self1 self2 :
  inputs self1 = inputs self2 → outputs self1 = outputs self2 →
  interested_nodes h1 self1 = interested_nodes h2 self2.
Proof.
  intros Hi Ho. unfold interested_nodes, search_fuel.
  by rewrite Hi, Ho, all_nodes_topology, search_inputs_topology.
Qed.

Lemma check_inputs_topology b l m :
  check_inputs h1 b l m = check_inputs h2 b l m.
Proof.
  induction l as [|n l IH]; simpl; [done|].
  rewrite (topo_name _ _ T). by destruct (m !! n).
Qed.

Lemma add_hypermodel_topology b self :
  _add_hypermodel h1 b self = _add_hypermodel h2 b self.
Proof.
  unfold _add_hypermodel.
  by rewrite (topo_outputs _ _ T), (topo_inputs _ _ T),
    check_inputs_topology.
Qed.

Lemma sort_hypermodels_topology hms st :
  sort_hypermodels h1 hms st = sort_hypermodels h2 hms st.
Proof.
  revert st. induction hms as [|b hms IH]; intros st; simpl; [done|].
  unfold any_output_known. rewrite (topo_outputs _ _ T).
  destruct (negb _); [apply IH|].
  rewrite add_hypermodel_topology.
  destruct (_add_hypermodel h2 b (q_self st)); simpl; [apply IH|done|done].
Qed.

Lemma sort_loop_topology fuel st :
  sort_loop h1 fuel st = sort_loop h2 fuel st.
Proof.
  revert st. induction fuel as [|fuel IH]; intros st; simpl; [done|].
  destruct (q_queue st) as [|n q]; [done|].
  rewrite (topo_out _ _ T), sort_hypermodels_topology.
  destruct (sort_hypermodels h2 _ _); simpl; [apply IH|done|done].
Qed.

Lemma sorted_hypermodels_topology m self1 self2 :
  inputs self1 = inputs self2 → outputs self1 = outputs self2 →
  sorted_hypermodels h1 (searched m self1)
  = sorted_hypermodels h2 (searched m self2).
Proof.
  intros Hi Ho. unfold sorted_hypermodels, sort_fuel.
  assert (set_hypermodels ∅ [] (searched m self1)
          = set_hypermodels ∅ [] (searched m self2)) as Hs.
  { unfold set_hypermodels, searched, set_nodes, set_node_to_id. simpl.
    by rewrite Hi, Ho. }
  rewrite Hs.
  assert (inputs (searched m self1) = inputs (searched m self2)) as ->
    by done.
  by rewrite all_nodes_topology, sort_loop_topology.
Qed.

Lemma set_output_shapes_topology_Ok l :
  (∃ h', set_output_shapes l h1 = Ok h') →
  ∃ h', set_output_shapes l h2 = Ok h'.
Proof.
  intros [h' E]. apply set_output_shapes_Ok. intros o Ho Hnil.
  rewrite <-(topo_in _ _ T) in Hnil.
  by rewrite (set_output_shapes_Raise l h1 o Ho Hnil) in E.
Qed.
End topology.

Lemma set_output_shape_hypermodel b s h b' :
  HyperModel.inputs (hypermodel_at (set_output_shape b s h) b')
  = HyperModel.inputs (hypermodel_at h b')
  ∧ HyperModel.outputs (hypermodel_at (set_output_shape b s h) b')
    = HyperModel.outputs (hypermodel_at h b')
  ∧ HyperModel.name (hypermodel_at (set_output_shape b s h) b')
    = HyperModel.name (hypermodel_at h b').
Proof.
  unfold hypermodel_at, set_output_shape. simpl.
  rewrite list_lookup_alter. destruct (decide (b = b')) as [->|]; [|done].
  by destruct (heap_hypermodels h !! b').
Qed.

Lemma set_output_shape_topology b s h :
  same_topology (set_output_shape b s h) h.
Proof.
  constructor; try done; intros b'; unfold outputs_of, inputs_of, name_of;
    by destruct (set_output_shape_hypermodel b s h b') as (? & ? & ?).
Qed.

Lemma set_output_shapes_topology l h h' :
  set_output_shapes l h = Ok h' → same_topology h' h.
Proof.
  revert h. induction l as [|o l IH]; intros h; simpl.
  - intros [= <-]. by constructor.
  - destruct (in_hypermodels_of h o) as [|b bs]; [done|].
    intros E%IH. eapply same_topology_trans; [exact E|].
    apply set_output_shape_topology.
Qed.

(** The result of [_build_network] but for the store: the same for stores
    that declare the same topology and objects with the same declared inputs
    and outputs. *)
Lemma build_network_topology h1 h2 self1 self2 h1' self1' :
  same_topology h1 h2 →
  inputs self1 = inputs self2 → outputs self1 = outputs self2 →
  _build_network h1 self1 = Ok (h1', self1') →
  ∃ h2', _build_network h2 self2 = Ok (h2', self1').
Proof.
  intros T Hi Ho (m & E1 & E2 & E3 & E4)%build_network_Ok.
  assert (Ho' : outputs self1' = outputs self1).
  { apply sorted_hypermodels_inv in E3. by rewrite (sort_outputs _ _ _ E3). }
  destruct (set_output_shapes_topology_Ok h1 h2 T (outputs self1'))
    as [h2' E4']; [by eexists|].
  exists h2'. apply build_network_Ok. exists m.
  rewrite <-(interested_nodes_topology h1 h2 T self1 self2 Hi Ho).
  rewrite <-(sorted_hypermodels_topology h1 h2 T m self1 self2 Hi Ho).
  by rewrite <-Hi, <-Ho.
Qed.

(** C8. The resolved [node_to_id], [nodes], [hypermodel_to_id] and
    [hypermodels] are a function of the declared topology: two stores with
    the same lists of hypermodels per node and of nodes per hypermodel, with
    the same declared inputs and outputs, resolve to the same object, whatever
    the fields held before.  In particular a second run of [_build_network],
    on the store and the object that the first run left, returns that object
    again. *)
Theorem C8_build_network_idempotent (h1 h2 h1' : Heap)
    (self1 self2 self1' : GraphAutoModel) :
  same_topology h1 h2 →
  inputs self1 = inputs self2 → outputs self1 = outputs self2 →
  _build_network h1 self1 = Ok (h1', self1') →
  (∃ h2', _build_network h2 self2 = Ok (h2', self1'))
  ∧ (∃ h1'', _build_network h1' self1' = Ok (h1'', self1')).
Proof.
  intros T Hi Ho E. split; [by eapply build_network_topology|].
  assert (E' := E). apply build_network_Ok in E' as (m & _ & _ & E3 & E4).
  apply sorted_hypermodels_inv in E3.
  eapply (build_network_topology h1 h1' self1 self1'); [| | |exact E].
  - by apply same_topology_sym, (set_output_shapes_topology _ _ _ E4).
  - by rewrite (sort_inputs _ _ _ E3).
  - by rewrite (sort_outputs _ _ _ E3).
Qed.

Lemma C8_build_network_witness :
  same_topology skip_heap skip_heap
  ∧ ∃ h' self',
      _build_network skip_heap (declared [0] [3]) = Ok (h', self')
      ∧ ∃ h'', _build_network h' self' = Ok (h'', self').
Proof.
  assert (T : same_topology skip_heap skip_heap) by (by constructor).
  split; [exact T|].
  assert (R : ∃ h' self',
             _build_network skip_heap (declared [0] [3]) = Ok (h', self')).
  { eexists _, _. vm_compute. reflexivity. }
  destruct R as (h' & self' & R). exists h', self'. split; [exact R|].
  exact (proj2 (C8_build_network_idempotent skip_heap skip_heap h'
                  (declared [0] [3]) (declared [0] [3]) self'
                  T eq_refl eq_refl R)).
Defined.

(** ** Termination, and the search on acyclic stores *)

(** [_build_network] ends on every store: it returns the resolved object or
    raises; the bounds of the recursion and of the queue loop are never
    exhausted. *)
Theorem build_network_terminates (h : Heap) (self : GraphAutoModel) :
  (∃ r, _build_network h self = Ok r) ∨ (∃ e, _build_network h self = Raise e).
Proof.
  destruct (_build_network h self) as [r|e|] eqn:E.
  - left. by exists r.
  - right. by exists e.
  - by apply build_network_fuel in E.
Qed.

Section search_acyclic.
Variable h : Heap.
Variable outs : list nat.
Hypothesis Hacyclic : acyclic h.

(** Every node on the stack leads to the node of the current call. *)
Definition stack_leads_to (n : nat) (st : search_state) : Prop :=
  ∀ x, x ∈ s_in_stack st → rtc (edge h) x n.

Lemma search_outputs_no_raise rec n l acc e :
  search_frame rec →
  (∀ s st e, stack_leads_to s st → rec s st ≠ Raise e) →
  (∀ s, s ∈ l → edge h n s) →
  stack_leads_to n acc.1 →
  search_outputs rec l acc ≠ Raise e.
Proof.
  intros Hframe Hrec. revert acc.
  induction l as [|s l IH]; intros [st r] Hl Hst; simpl; [done|].
  assert (edge h n s) as He by (apply Hl; by left).
  intros [E|([st1 r1] & E1 & E2)]%bind_Raise.
  - revert E. unfold search_output; simpl.
    destruct (decide (s ∈ s_in_stack st)) as [Hs|Hs].
    + intros _. apply (Hacyclic s). unfold on_cycle.
      apply tc_rtc_l with n; [by apply Hst | by apply tc_once].
    + destruct (decide (s ∈ s_visited st)); simpl; [done|].
      destruct (rec s st) eqn:E; simpl; [done| |done].
      intros _. eapply (Hrec s st); [|done].
      intros x Hx. eapply rtc_r; [by apply Hst | done].
  - apply search_output_frame in E1 as (_ & F1 & _); [|done].
    revert E2. apply IH; [intros; apply Hl; by right|].
    intros x Hx. simpl in *. rewrite F1 in Hx. by apply Hst.
Qed.

Lemma search_network_no_raise fuel n st e :
  stack_leads_to n st → _search_network h outs fuel n st ≠ Raise e.
Proof.
  revert n st e. induction fuel as [|fuel IH]; intros n st e Hst; simpl;
    [done|].
  rewrite search_hypermodels_successors.
  assert (Hfr := search_network_frame h outs fuel).
  intros [E|([st2 r2] & E & F)]%bind_Raise.
  - revert E. apply (search_outputs_no_raise _ n); [done| |done|].
    + intros s st' e' Hs. by apply IH.
    + intros x. simpl. intros [->%elem_of_singleton|Hx]%elem_of_union;
        [constructor | by apply Hst].
  - apply search_outputs_frame in E as (E1 & _); [|done]. simpl in *.
    destruct (decide (n ∈ s_in_stack st2)) as [|Hn]; [done|].
    apply Hn. rewrite E1. set_solver.
Qed.
End search_acyclic.

(** On an acyclic store the search raises nothing: the first loop of
    [_build_network] ends with a dictionary, whose keys are exactly the nodes
    on a path from a declared input to a declared output. *)
Theorem acyclic_search_returns (h : Heap) (self : GraphAutoModel) :
  acyclic h →
  ∃ m, interested_nodes h self = Ok m
       ∧ ∀ x, x ∈ dom m ↔ on_path h (inputs self) (outputs self) x.
Proof.
  intros Hac.
  assert (∀ fuel l m e,
            search_inputs h (outputs self) fuel l m ≠ Raise e) as Hno.
  { intros fuel l. induction l as [|i l IH]; intros m e; simpl; [done|].
    intros [E|(st & _ & E)]%bind_Raise; [|by apply IH in E].
    revert E. apply search_network_no_raise; [done|].
    intros x Hx. simpl in Hx. by apply not_elem_of_empty in Hx. }
  destruct (interested_nodes_total h self) as [[m E]|E].
  - exists m. split; [done|]. by apply interested_nodes_spec in E as [? _].
  - by apply Hno in E.
Qed.

Lemma acyclic_search_witness :
  acyclic skip_heap
  ∧ ∃ m, interested_nodes skip_heap (declared [0] [3]) = Ok m
         ∧ ∀ x, x ∈ dom m ↔ on_path skip_heap [0] [3] x.
Proof.
  assert (H : acyclic skip_heap)
    by apply increasing_edges_acyclic, skip_heap_edges.
  split; [exact H|].
  exact (acyclic_search_returns skip_heap (declared [0] [3]) H).
Defined.


(** * Further properties of the resolution

    ** Which exception [_build_network] raises *)

Section search_raise.
Variable h : Heap.
Variable outs : list nat.

Lemma search_outputs_raise_cycle rec n l acc e :
  search_frame rec →
  (∀ s st e, stack_leads_to h s st → rec s st = Raise e →
             ∃ c, rtc (edge h) s c ∧ on_cycle h c) →
  (∀ s, s ∈ l → edge h n s) →
  stack_leads_to h n acc.1 →
  search_outputs rec l acc = Raise e →
  ∃ c, rtc (edge h) n c ∧ on_cycle h c.
Proof.
  intros Hframe Hrec. revert acc.
  induction l as [|s l IH]; intros [st r] Hl Hst; simpl; [done|].
  assert (edge h n s) as He by (apply Hl; by left).
  intros [E|([st1 r1] & E1 & E2)]%bind_Raise.
  - revert E. unfold search_output; simpl.
    destruct (decide (s ∈ s_in_stack st)) as [Hs|Hs].
    + intros _. exists s. split; [by apply rtc_once|]. unfold on_cycle.
      apply tc_rtc_l with n; [by apply Hst | by apply tc_once].
    + destruct (decide (s ∈ s_visited st)); simpl; [done|].
      destruct (rec s st) eqn:E; simpl; [done| |done].
      intros _. destruct (Hrec s st e0) as (c & Hc & Hcyc); [|done|].
      * intros x Hx. eapply rtc_r; [by apply Hst | done].
      * exists c. split; [by eapply rtc_l | done].
  - apply search_output_frame in E1 as (_ & F1 & _); [|done].
    revert E2. apply IH; [intros; apply Hl; by right|].
    intros x Hx. simpl in *. rewrite F1 in Hx. by apply Hst.
Qed.

(** An exception of the search comes with a cycle that the searched node
    leads to. *)
Lemma search_network_raise_cycle fuel n st e :
  stack_leads_to h n st →
  _search_network h outs fuel n st = Raise e →
  ∃ c, rtc (edge h) n c ∧ on_cycle h c.
Proof.
  revert n st e. induction fuel as [|fuel IH]; intros n st e Hst; simpl;
    [done|].
  rewrite search_hypermodels_successors.
  assert (Hfr := search_network_frame h outs fuel).
  intros [E|([st2 r2] & E & F)]%bind_Raise.
  - revert E. apply (search_outputs_raise_cycle _ n); [done| |done|].
    + intros s st' e' Hs. by apply IH.
    + intros x. simpl. intros [->%elem_of_singleton|Hx]%elem_of_union;
        [constructor | by apply Hst].
  - apply search_outputs_frame in E as (E1 & _); [|done]. simpl in *.
    destruct (decide (n ∈ s_in_stack st2)) as [|Hn]; [done|].
    exfalso. apply Hn. rewrite E1. set_solver.
Qed.

Lemma search_inputs_raise_cycle fuel l m e :
  search_inputs h outs fuel l m = Raise e →
  ∃ i c, i ∈ l ∧ rtc (edge h) i c ∧ on_cycle h c.
Proof.
  revert m. induction l as [|i l IH]; intros m; simpl; [done|].
  intros [E|(st & _ & E)]%bind_Raise.
  - apply search_network_raise_cycle in E as (c & Hc & Hcyc).
    + exists i, c. split; [by left | done].
    + intros x Hx. simpl in Hx. by apply not_elem_of_empty in Hx.
  - apply IH in E as (i' & c & Hi & Hc). exists i', c.
    split; [by right | done].
Qed.
End search_raise.

Lemma cycle_error_distinct :
  cycle_error ≠ disconnected_error
  ∧ (∀ nm, missing_input_error nm ≠ cycle_error)
  ∧ cycle_error ≠ IndexError.
Proof.
  unfold cycle_error, disconnected_error, missing_input_error. simpl.
  split; [by intros [=]|]. split; [by intros nm [=] | done].
Qed.

(** A cycle that some declared input leads to. *)
Definition reachable_cycle (h : Heap) (ins : list nat) : Prop :=
  ∃ i c, i ∈ ins ∧ rtc (edge h) i c ∧ on_cycle h c.

(** [_build_network] raises [ValueError("The network has a cycle.")] exactly
    when a declared input leads to a cycle: the detection has no false alarm,
    and no other step raises this error. *)
Theorem cycle_error_iff_reachable_cycle (h : Heap) (self : GraphAutoModel) :
  _build_network h self = Raise cycle_error
  ↔ reachable_cycle h (inputs self).
Proof.
  split.
  - rewrite build_network_unfold.
    intros [E|(m & _ & E)]%bind_Raise.
    { unfold interested_nodes in E.
      by apply search_inputs_raise_cycle in E. }
    exfalso. destruct cycle_error_distinct as (D1 & D2 & D3).
    apply bind_Raise in E as [E|([] & _ & E)].
    { destruct (check_connected_result (inputs self ++ outputs self) m)
        as [E'|E']; congruence. }
    apply bind_Raise in E as [E|(self2 & _ & E)].
    { apply sorted_hypermodels_raise in E as (b & n & E & _).
      by apply (D2 (name_of h b)). }
    apply bind_Raise in E as [E|(h' & _ & E)]; [|done].
    destruct (set_output_shapes_result (outputs self2) h) as [[h' E']|E'];
      congruence.
  - intros (i & c & Hi & Hr & Hc). rewrite build_network_unfold.
    by rewrite (interested_nodes_cycle h self i c Hi Hr Hc).
Qed.

(** [_build_network] raises [ValueError("Inputs and outputs not connected.")]
    exactly when no declared input leads to a cycle and some declared input
    or output lies on no path from a declared input to a declared output. *)
Theorem disconnected_error_iff (h : Heap) (self : GraphAutoModel) :
  _build_network h self = Raise disconnected_error
  ↔ ¬ reachable_cycle h (inputs self)
    ∧ ∃ n, n ∈ inputs self ++ outputs self
           ∧ ¬ on_path h (inputs self) (outputs self) n.
Proof.
  split.
  - intros E. assert (E' := E). rewrite build_network_unfold in E'.
    destruct (interested_nodes_total h self) as [[m Em]|Em].
    + destruct (interested_nodes_spec h self m Em) as (Hdom & Hno & _).
      split.
      { intros (i & c & Hi & Hr & Hc). by apply (Hno i c). }
      rewrite Em in E'. cbn [mbind result_mbind result_bind] in E'.
      destruct (check_connected (inputs self ++ outputs self) m)
        as [[]| |] eqn:Ec.
      * exfalso. cbn [mbind result_mbind result_bind] in E'.
        apply bind_Raise in E' as [E'|(self2 & _ & E')].
        { apply sorted_hypermodels_raise in E' as (b & n & E' & _).
          by apply (missing_input_not_disconnected (name_of h b)). }
        apply bind_Raise in E' as [E'|(h' & _ & E')]; [|done].
        unfold disconnected_error in E'.
        destruct (set_output_shapes_result (outputs self2) h)
          as [[h' E'']|E'']; congruence.
      * assert (¬ ∀ n, n ∈ inputs self ++ outputs self → n ∈ dom m) as Hnot.
        { intros Hall. apply check_connected_Ok in Hall. congruence. }
        clear E E' Ec e.
        induction (inputs self ++ outputs self) as [|n l IH].
        { exfalso. apply Hnot. by intros ? ?%elem_of_nil. }
        destruct (decide (n ∈ dom m)) as [Hn|Hn].
        -- destruct IH as (n' & Hn' & Hp).
           { intros Hall. apply Hnot.
             intros x [->|Hx]%elem_of_cons; [done | by apply Hall]. }
           exists n'. split; [by right | done].
        -- exists n. split; [by left|]. by rewrite <-Hdom.
      * destruct (check_connected_result (inputs self ++ outputs self) m);
          congruence.
    + rewrite Em in E'. cbn [mbind result_mbind result_bind] in E'.
      destruct cycle_error_distinct as (D1 & _). congruence.
  - intros (Hno & n & Hn & Hp). rewrite build_network_unfold.
    destruct (interested_nodes_total h self) as [[m Em]|Em].
    + destruct (interested_nodes_spec h self m Em) as (Hdom & _ & _).
      rewrite Em. cbn [mbind result_mbind result_bind].
      rewrite (check_connected_Raise _ m n Hn); [done|].
      by rewrite Hdom.
    + exfalso. apply Hno. unfold interested_nodes in Em.
      by apply search_inputs_raise_cycle in Em.
Qed.

(** ** Identifiers *)

(** A property of [node_to_id] that every [_add_node] keeps. *)
Definition kept_by_add_node (P : gmap nat nat → Prop) : Prop :=
  ∀ n m, P m → P (_add_node n m).

Section kept_node_to_id.
Variable h : Heap.
Variable P : gmap nat nat → Prop.
Hypothesis HP : kept_by_add_node P.

Lemma search_outputs_kept rec l acc acc' :
  (∀ n st st', P (s_node_to_id st) → rec n st = Ok st' →
               P (s_node_to_id st')) →
  P (s_node_to_id acc.1) →
  search_outputs rec l acc = Ok acc' → P (s_node_to_id acc'.1).
Proof.
  intros Hrec. revert acc.
  induction l as [|s l IH]; intros [st r] Hst; simpl.
  - by intros [= <-].
  - intros ([st1 r1] & E1 & E2)%bind_Ok. apply (IH (st1, r1)); [|done].
    revert E1. unfold search_output; simpl.
    destruct (decide (s ∈ s_in_stack st)); [done|].
    destruct (decide (s ∈ s_visited st)); simpl.
    + by intros [= <- <-].
    + destruct (rec s st) as [st2| |] eqn:E; simpl; [|done|done].
      intros [= <- <-]. by eapply Hrec.
Qed.

Lemma search_network_kept outs fuel n st st' :
  P (s_node_to_id st) →
  _search_network h outs fuel n st = Ok st' → P (s_node_to_id st').
Proof.
  revert n st st'. induction fuel as [|fuel IH]; intros n st st' Hst; simpl;
    [done|].
  rewrite search_hypermodels_successors.
  intros ([st2 r2] & E & F)%bind_Ok. simpl in F.
  apply search_outputs_kept in E; [|by apply IH|done]. simpl in E.
  destruct (decide (n ∈ s_in_stack st2)); [|done].
  injection F as <-. simpl. destruct r2; [by apply HP | done].
Qed.

Lemma search_inputs_kept outs fuel l m m' :
  P m → search_inputs h outs fuel l m = Ok m' → P m'.
Proof.
  revert m. induction l as [|i l IH]; intros m Hm; simpl.
  - by intros [= <-].
  - intros (st & E & F)%bind_Ok. apply search_network_kept in E; [|done].
    by apply (IH _ E).
Qed.

Lemma add_nodes_kept l m : P m → P (foldl (λ m n, _add_node n m) m l).
Proof.
  revert m. induction l as [|n l IH]; intros m Hm; simpl; [done|].
  by apply IH, HP.
Qed.

Lemma with_hypermodel_node_to_id b self :
  node_to_id (with_hypermodel h b self)
  = foldl (λ m n, _add_node n m) (node_to_id self) (outputs_of h b).
Proof. unfold with_hypermodel. simpl. by destruct (decide _). Qed.

(** Every identifier is assigned by [_add_node]: what it keeps holds of the
    resolved [node_to_id]. *)
Lemma build_network_kept self h' self' :
  P ∅ → _build_network h self = Ok (h', self') → P (node_to_id self').
Proof.
  intros H0 (m & E1 & _ & E3 & _)%build_network_Ok.
  unfold interested_nodes in E1. apply search_inputs_kept in E1; [|done].
  unfold sorted_hypermodels in E3. apply bind_Ok in E3 as (st & E3 & [= <-]).
  apply (sort_loop_kept h (λ self, P (node_to_id self))) in E3; [done| |].
  - intros b s Hs _. rewrite with_hypermodel_node_to_id.
    by apply add_nodes_kept.
  - by destruct (enqueue_inputs_spec (set_hypermodels ∅ [] (searched m self)))
      as (-> & _).
Qed.
End kept_node_to_id.

(** The identifiers of a dictionary are the numbers below its size, each
    for one node. *)
Record dense_ids (m : gmap nat nat) : Prop := DenseIds {
  dense_below : ∀ x v, m !! x = Some v → v < size m;
  dense_inj : ∀ x y v, m !! x = Some v → m !! y = Some v → x = y;
  dense_onto : ∀ v, v < size m → ∃ x, m !! x = Some v
}.

Lemma dense_ids_empty : dense_ids ∅.
Proof.
  constructor.
  - intros x v. by rewrite lookup_empty.
  - intros x y v. by rewrite lookup_empty.
  - intros v. rewrite map_size_empty. lia.
Qed.

Lemma dense_ids_add_node : kept_by_add_node dense_ids.
Proof.
  intros n m [D I O].
  destruct (decide (n ∈ dom m)) as [Hin|Hin];
    [by rewrite add_node_known|].
  assert (m !! n = None) as Hnone by by apply not_elem_of_dom.
  unfold _add_node. rewrite Hnone. constructor.
  - intros x v. rewrite map_size_insert_None by done.
    destruct (decide (x = n)) as [->|Hne].
    + rewrite lookup_insert_eq. intros [= <-]. lia.
    + rewrite lookup_insert_ne by done. intros Hx%D. lia.
  - intros x y v.
    destruct (decide (x = n)) as [->|Hx], (decide (y = n)) as [->|Hy];
      [done| | |].
    + rewrite lookup_insert_eq, lookup_insert_ne by done.
      intros [= <-] Hy'%D. lia.
    + rewrite lookup_insert_eq, lookup_insert_ne by done.
      intros Hx'%D [= <-]. lia.
    + rewrite !lookup_insert_ne by done. apply I.
  - intros v. rewrite map_size_insert_None by done. intros Hv.
    destruct (decide (v = size m)) as [->|Hne].
    + exists n. by rewrite lookup_insert_eq.
    + destruct (O v) as [x Hx]; [lia|]. exists x.
      rewrite lookup_insert_ne; [done|]. intros <-. congruence.
Qed.

(** After [_build_network] the identifiers of [node_to_id] are exactly the
    numbers [0 .. len(node_to_id) - 1], and no two nodes share one. *)
Theorem node_identifiers_dense (h h' : Heap) (self self' : GraphAutoModel) :
  _build_network h self = Ok (h', self') →
  (∀ x v, node_to_id self' !! x = Some v → v < size (node_to_id self'))
  ∧ (∀ x y v, node_to_id self' !! x = Some v →
              node_to_id self' !! y = Some v → x = y)
  ∧ (∀ v, v < size (node_to_id self') →
          ∃ x, node_to_id self' !! x = Some v).
Proof.
  intros E.
  destruct (build_network_kept h dense_ids dense_ids_add_node self h' self'
              dense_ids_empty E) as [D I O].
  done.
Qed.

Lemma node_identifiers_dense_witness :
  ∃ h' self',
    _build_network fork_heap (declared [0] [1]) = Ok (h', self')
    ∧ (∀ x y v, node_to_id self' !! x = Some v →
                node_to_id self' !! y = Some v → x = y).
Proof.
  assert (R : ∃ h' self',
             _build_network fork_heap (declared [0] [1]) = Ok (h', self')).
  { eexists _, _. vm_compute. reflexivity. }
  destruct R as (h' & self' & R). exists h', self'. split; [exact R|].
  exact (proj1 (proj2 (node_identifiers_dense fork_heap h'
                         (declared [0] [1]) self' R))).
Defined.

Lemma with_hypermodel_hypermodel_to_id (h : Heap) b self :
  hypermodel_to_id (with_hypermodel h b self)
  = if decide (b ∈ hypermodels self) then hypermodel_to_id self
    else <[b := length (hypermodels self)]> (hypermodel_to_id self).
Proof. unfold with_hypermodel. by destruct (decide _). Qed.

(** [hypermodel_to_id] holds the positions of the hypermodels in
    [hypermodels]. *)
Definition positions_ok (self : GraphAutoModel) : Prop :=
  ∀ b i, hypermodel_to_id self !! b = Some i ↔ hypermodels self !! i = Some b.

Lemma positions_ok_kept (h : Heap) : kept_by_add_hypermodel h positions_ok.
Proof.
  intros b self Hok _ b' i.
  rewrite with_hypermodel_hypermodel_to_id, with_hypermodel_hypermodels.
  destruct (decide (b ∈ hypermodels self)) as [Hb|Hb]; [apply Hok|].
  destruct (decide (b' = b)) as [->|Hne].
  - rewrite lookup_insert_eq. split.
    + intros [= <-]. by rewrite lookup_app_r, Nat.sub_diag.
    + intros Hi. destruct (decide (i < length (hypermodels self))) as [Hlt|Hge].
      * rewrite lookup_app_l in Hi by done. exfalso. apply Hb.
        by eapply list_elem_of_lookup_2.
      * apply lookup_lt_Some in Hi. rewrite length_app in Hi. simpl in Hi.
        f_equal. lia.
  - rewrite lookup_insert_ne by done. rewrite (Hok b' i). split.
    + intros Hi. by apply lookup_app_l_Some.
    + intros Hi. apply lookup_app_Some in Hi as [?|[_ Hi]]; [done|].
      apply list_lookup_singleton_Some in Hi as [_ ->]. done.
Qed.

(** After [_build_network], [hypermodel_to_id] maps every hypermodel of the
    order to its position in [self.hypermodels], and holds nothing else. *)
Theorem hypermodel_identifiers_are_positions (h h' : Heap)
    (self self' : GraphAutoModel) :
  _build_network h self = Ok (h', self') →
  ∀ b i, hypermodel_to_id self' !! b = Some i ↔ hypermodels self' !! i = Some b.
Proof.
  intros (m & _ & _ & E3 & _)%build_network_Ok.
  unfold sorted_hypermodels in E3. apply bind_Ok in E3 as (st & E3 & [= <-]).
  apply (sort_loop_kept h positions_ok) in E3;
    [done | apply positions_ok_kept |].
  destruct (enqueue_inputs_spec (set_hypermodels ∅ [] (searched m self)))
    as (-> & _).
  intros b i. simpl. by rewrite lookup_empty, lookup_nil.
Qed.

Lemma hypermodel_identifiers_witness :
  ∃ h' self',
    _build_network skip_heap (declared [0] [3]) = Ok (h', self')
    ∧ (hypermodel_to_id self' !! 2 = Some 1 ↔ hypermodels self' !! 1 = Some 2).
Proof.
  assert (R : ∃ h' self',
             _build_network skip_heap (declared [0] [3]) = Ok (h', self')).
  { eexists _, _. vm_compute. reflexivity. }
  destruct R as (h' & self' & R). exists h', self'. split; [exact R|].
  exact (hypermodel_identifiers_are_positions skip_heap h'
           (declared [0] [3]) self' R 2 1).
Defined.

(** ** [self.nodes] *)

(** A strictly increasing list of numbers between [a] and [a] plus its length
    is the list of these numbers. *)
Lemma increasing_is_seq (vs : list nat) (a : nat) :
  StronglySorted lt vs →
  (∀ v, v ∈ vs → a ≤ v < a + length vs) →
  vs = seq a (length vs).
Proof.
  revert a. induction vs as [|v vs IH]; intros a Hs Hb; [done|].
  apply StronglySorted_inv in Hs as [Hs Hall].
  rewrite Forall_forall in Hall.
  assert (a ≤ v) as Hav by (apply (Hb v); by left).
  assert (vs = seq (S v) (length vs)) as Hvs.
  { apply IH; [done|]. intros x Hx.
    assert (x ∈ v :: vs) as Hx' by by right.
    apply Hb in Hx'. simpl in Hx'. apply Hall in Hx. lia. }
  assert (v ≤ a) as Hva.
  { destruct vs as [|w vs'].
    - assert (v ∈ [v]) as Hv by by left. apply Hb in Hv. simpl in Hv. lia.
    - assert (S v + length vs' ∈ w :: vs') as Hlast.
      { rewrite Hvs. apply elem_of_seq. simpl. lia. }
      apply (list_elem_of_further _ v) in Hlast. apply Hb in Hlast.
      simpl in Hlast. lia. }
  assert (v = a) as -> by lia. simpl. by rewrite <-Hvs.
Qed.

#[local] Instance id_le_total : Total id_le.
Proof. intros x y. unfold id_le. lia. Qed.

#[local] Instance id_le_trans : Transitive id_le.
Proof. intros x y z. unfold id_le. lia. Qed.

Lemma sorted_ids_increasing (l : list (nat * nat)) :
  StronglySorted id_le l → NoDup (l.*2) → StronglySorted lt (l.*2).
Proof.
  induction 1 as [|p l Hs IH Hall]; simpl; [constructor|].
  intros [Hp Hnd]%NoDup_cons. constructor; [by apply IH|].
  rewrite Forall_forall in Hall. apply Forall_forall.
  intros v Hv. apply list_elem_of_fmap in Hv as Hv'.
  destruct Hv' as (q & -> & Hq). specialize (Hall q Hq).
  unfold id_le in Hall. assert (p.2 ≠ q.2); [|lia].
  intros Heq. apply Hp. apply list_elem_of_fmap. by exists q.
Qed.

(** With dense identifiers, the keys sorted by identifier have each node at
    the position of its identifier. *)
Lemma sorted_nodes_lookup (m : gmap nat nat) i x :
  dense_ids m → sorted_nodes m !! i = Some x ↔ m !! x = Some i.
Proof.
  intros [D I O]. unfold sorted_nodes.
  set (l := merge_sort id_le (map_to_list m)).
  assert (Hperm : l ≡ₚ map_to_list m) by apply merge_sort_Permutation.
  assert (Hin : ∀ y v, (y, v) ∈ l ↔ m !! y = Some v).
  { intros y v. rewrite Hperm. apply elem_of_map_to_list. }
  assert (Hnodup : NoDup l).
  { rewrite Hperm. apply NoDup_map_to_list. }
  assert (Hsorted : StronglySorted id_le l)
    by (apply StronglySorted_merge_sort; apply _).
  assert (Hlen : length l = size m).
  { rewrite Hperm. apply length_map_to_list. }
  assert (Hids : l.*2 = seq 0 (length l)).
  { rewrite <-(length_fmap snd l). apply increasing_is_seq.
    - apply sorted_ids_increasing; [done|].
      apply NoDup_fmap_2_strong; [|done].
      intros [y v] [y' v'] Hy Hy' Hv. simpl in Hv. subst v'.
      apply Hin in Hy, Hy'. f_equal. by apply (I y y' v).
    - intros v (p & -> & Hp)%list_elem_of_fmap. destruct p as [y v].
      apply Hin, D in Hp. rewrite length_fmap, Hlen. simpl. lia. }
  assert (Hpos : ∀ j y v, l !! j = Some (y, v) → v = j).
  { intros j y v Hj.
    assert ((l.*2) !! j = Some v) as Hv by by rewrite list_lookup_fmap, Hj.
    rewrite Hids in Hv. apply lookup_seq in Hv as [-> _]. done. }
  rewrite list_lookup_fmap. split.
  - intros Hi. destruct (l !! i) as [[y v]|] eqn:E; [|done].
    simpl in Hi. injection Hi as ->. apply Hpos in E as Hv. subst v.
    apply Hin. by eapply list_elem_of_lookup_2.
  - intros Hx. apply Hin, list_elem_of_lookup_1 in Hx as [j Hj].
    apply Hpos in Hj as Hv. subst j. by rewrite Hj.
Qed.

(** After [_build_network], [self.nodes] holds exactly the nodes on a path
    from a declared input to a declared output, each at the position of its
    identifier: the nodes that [_add_hypermodel] numbers later are in
    [node_to_id] but not in [self.nodes]. *)
Theorem nodes_are_path_nodes_by_identifier (h h' : Heap)
    (self self' : GraphAutoModel) :
  _build_network h self = Ok (h', self') →
  ∀ i x, nodes self' !! i = Some x
         ↔ on_path h (inputs self) (outputs self) x
           ∧ node_to_id self' !! x = Some i.
Proof.
  intros (m & E1 & _ & E3 & _)%build_network_Ok.
  apply interested_nodes_spec in E1 as Hspec. destruct Hspec as (Hdom & _ & _).
  assert (dense_ids m) as Hdense.
  { unfold interested_nodes in E1.
    by apply (search_inputs_kept h dense_ids dense_ids_add_node) in E1;
      [|apply dense_ids_empty]. }
  apply sorted_hypermodels_inv in E3 as [_ _ Hn _ Hold _ _].
  simpl in Hn, Hold. intros i x. rewrite Hn, sorted_nodes_lookup by done.
  split.
  - intros Hx. assert (x ∈ dom m) as Hd by by apply elem_of_dom_2 in Hx.
    split; [by apply Hdom|]. by rewrite Hold.
  - intros [Hp Hx]. apply Hdom in Hp. by rewrite Hold in Hx.
Qed.

Lemma nodes_are_path_nodes_witness :
  ∃ h' self',
    _build_network fork_heap (declared [0] [1]) = Ok (h', self')
    ∧ (nodes self' !! 0 = Some 1
       ↔ on_path fork_heap [0] [1] 1 ∧ node_to_id self' !! 1 = Some 0).
Proof.
  assert (R : ∃ h' self',
             _build_network fork_heap (declared [0] [1]) = Ok (h', self')).
  { eexists _, _. vm_compute. reflexivity. }
  destruct R as (h' & self' & R). exists h', self'. split; [exact R|].
  exact (nodes_are_path_nodes_by_identifier fork_heap h'
           (declared [0] [1]) self' R 0 1).
Defined.

(** ** The queue loop: which hypermodels it takes, and where it puts them *)

Section bfs.
Variable h : Heap.
Variable ins : list nat.
(** The identifiers that the search has assigned. *)
Variable m : gmap nat nat.

(** [n] is a declared input or an output of a hypermodel that stands before
    position [i] of [l]. *)
Definition placed (l : list nat) (i : nat) (n : nat) : Prop :=
  n ∈ ins ∨ ∃ j p, j < i ∧ l !! j = Some p ∧ n ∈ outputs_of h p.

(** The loop has dealt with the hypermodel [b]: if one of its outputs was
    numbered by the search, [b] is in the list and its outputs are visited. *)
Definition settled (st : sort_state) (b : nat) : Prop :=
  (∃ s, s ∈ outputs_of h b ∧ s ∈ dom m) →
  b ∈ hypermodels (q_self st) ∧ ∀ s, s ∈ outputs_of h b → s ∈ q_visited st.

(** The state of the loop; [D] are the nodes whose [out_hypermodels] have
    been walked, [P] these and the node at hand. *)
Record bfs_inv (D P : gset nat) (st : sort_state) : Prop := BfsInv {
  bfs_known : dom m ⊆ dom (node_to_id (q_self st));
  bfs_inputs : ∀ i, i ∈ ins → i ∈ q_visited st;
  bfs_queue : ∀ x, x ∈ q_queue st → x ∈ q_visited st;
  bfs_pending : ∀ x, x ∈ q_visited st → x ∈ P ∨ x ∈ q_queue st;
  bfs_done : ∀ n b, n ∈ D → b ∈ out_hypermodels_of h n → settled st b;
  bfs_produced : ∀ x, x ∈ q_visited st →
                   placed (hypermodels (q_self st))
                          (length (hypermodels (q_self st))) x;
  bfs_after : ∀ i b, hypermodels (q_self st) !! i = Some b →
                ∃ n, b ∈ out_hypermodels_of h n
                     ∧ placed (hypermodels (q_self st)) i n
}.

Lemma placed_mono l l' i i' n :
  (∀ j p, l !! j = Some p → l' !! j = Some p) → i ≤ i' →
  placed l i n → placed l' i' n.
Proof.
  intros Hl Hi [?|(j & p & Hj & Hp & Hn)]; [by left|].
  right. exists j, p. split; [lia|]. split; [by apply Hl | done].
Qed.

Lemma with_hypermodel_lookup b self j p :
  hypermodels self !! j = Some p →
  hypermodels (with_hypermodel h b self) !! j = Some p.
Proof.
  intros Hj. rewrite with_hypermodel_hypermodels.
  destruct (decide _); [done|]. by apply lookup_app_l_Some.
Qed.

Lemma with_hypermodel_length b self :
  length (hypermodels self) ≤ length (hypermodels (with_hypermodel h b self)).
Proof.
  rewrite with_hypermodel_hypermodels.
  destruct (decide _); [done|]. rewrite length_app. lia.
Qed.

(** The inner loop over the outputs of a hypermodel whose outputs all have
    an identifier: all of them are visited afterwards, and the new ones are
    in the queue. *)
Lemma enqueue_outputs_spec l st :
  (∀ s, s ∈ l → s ∈ dom (node_to_id (q_self st))) →
  let st' := foldl enqueue_output st l in
  q_visited st' = q_visited st ∪ list_to_set l
  ∧ (∀ x, x ∈ q_queue st' ↔ x ∈ q_queue st ∨ (x ∈ l ∧ x ∉ q_visited st)).
Proof.
  revert st. induction l as [|s l IH]; intros st Hl; simpl.
  - split; [set_solver|]. intros x. split; [by left|].
    intros [?|[[]%elem_of_nil _]]; done.
  - assert (s ∈ dom (node_to_id (q_self st))) as Hs by (apply Hl; by left).
    destruct (IH (enqueue_output st s)) as [IH1 IH2].
    { intros x Hx. unfold enqueue_output. destruct (decide _); simpl;
        apply Hl; by right. }
    rewrite IH1. unfold enqueue_output in *.
    destruct (decide _) as [[Hv _]|Hn]; simpl in *.
    + split; [set_solver|]. intros x. rewrite IH2. clear IH1 IH2.
      destruct (decide (x = s)) as [->|Hne]; set_solver.
    + assert (s ∈ q_visited st) as Hv.
      { destruct (decide (s ∈ q_visited st)); [done|]. exfalso. by apply Hn. }
      split; [set_solver|]. intros x. rewrite IH2. clear IH1 IH2.
      set_solver.
Qed.

(** One hypermodel of [input_node.out_hypermodels] that passes the test of
    the loop and [_add_hypermodel]. *)
Lemma take_hypermodel_bfs D P n b st :
  bfs_inv D P st → n ∈ q_visited st → b ∈ out_hypermodels_of h n →
  let st1 := foldl enqueue_output
               (SortState (with_hypermodel h b (q_self st)) (q_visited st)
                          (q_queue st))
               (outputs_of h b) in
  bfs_inv D P st1
  ∧ (∀ b', settled st b' → settled st1 b')
  ∧ settled st1 b
  ∧ n ∈ q_visited st1.
Proof.
  intros [K I Q Pe Dn Pr Af] Hn Hb st1.
  assert (Hself : q_self st1 = with_hypermodel h b (q_self st))
    by apply enqueue_outputs_self.
  destruct (enqueue_outputs_spec (outputs_of h b)
              (SortState (with_hypermodel h b (q_self st)) (q_visited st)
                         (q_queue st))) as [Hv Hq].
  { intros s Hs. cbn [q_self]. rewrite with_hypermodel_dom. set_solver. }
  fold st1 in Hv, Hq. cbn [q_self q_visited q_queue] in Hv, Hq.
  assert (Hin : b ∈ hypermodels (q_self st1)).
  { rewrite Hself. apply elem_of_with_hypermodel. by right. }
  assert (Hmono : ∀ b', settled st b' → settled st1 b').
  { intros b' Hs Hex. destruct (Hs Hex) as [H1 H2]. split.
    - rewrite Hself. apply elem_of_with_hypermodel. by left.
    - intros s Hs'. rewrite Hv. apply elem_of_union; left. by apply H2. }
  split; [|split; [done|split]].
  - constructor.
    + rewrite Hself, with_hypermodel_dom. set_solver.
    + intros i Hi. rewrite Hv. apply elem_of_union; left. by apply I.
    + intros x [Hx|[Hx _]]%Hq; rewrite Hv; [|set_solver].
      apply elem_of_union; left. by apply Q.
    + intros x. rewrite Hv, elem_of_union, elem_of_list_to_set.
      intros [Hx|Hx].
      * destruct (Pe x Hx) as [?|?]; [by left|]. right. apply Hq. by left.
      * destruct (decide (x ∈ q_visited st)) as [Hx'|Hx'].
        -- destruct (Pe x Hx') as [?|?]; [by left|]. right. apply Hq.
           by left.
        -- right. apply Hq. by right.
    + intros n' b' Hn' Hb'. apply Hmono. by eapply Dn.
    + intros x. rewrite Hv, elem_of_union, elem_of_list_to_set.
      intros [Hx|Hx].
      * rewrite Hself. eapply placed_mono; [| |by apply Pr].
        -- intros j p. apply with_hypermodel_lookup.
        -- apply with_hypermodel_length.
      * right. apply list_elem_of_lookup_1 in Hin as [j Hj].
        exists j, b. split; [by eapply lookup_lt_Some|done].
    + intros i b'. rewrite Hself, with_hypermodel_hypermodels.
      destruct (decide (b ∈ hypermodels (q_self st))) as [Hold|Hnew];
        [apply Af|].
      intros [Hi|[Hi Hb']]%lookup_app_Some.
      * destruct (Af i b' Hi) as (n' & ? & ?). exists n'. split; [done|].
        eapply placed_mono; [| |done]; [|done].
        intros j p. apply lookup_app_l_Some.
      * apply list_lookup_singleton_Some in Hb' as [Hi' <-].
        exists n. split; [done|].
        eapply placed_mono; [| |by apply Pr].
        -- intros j p. apply lookup_app_l_Some.
        -- lia.
  - intros _. split; [done|]. intros s Hs. rewrite Hv. set_solver.
  - rewrite Hv. set_solver.
Qed.

Lemma sort_hypermodels_bfs D P n pre hms st st' :
  bfs_inv D P st → n ∈ q_visited st →
  (∀ b, b ∈ hms → b ∈ out_hypermodels_of h n) →
  (∀ b, b ∈ pre → settled st b) →
  sort_hypermodels h hms st = Ok st' →
  bfs_inv D P st' ∧ ∀ b, b ∈ pre ++ hms → settled st' b.
Proof.
  revert pre st. induction hms as [|b hms IH]; intros pre st Hinv Hn Hout Hpre;
    simpl.
  - intros [= <-]. by rewrite app_nil_r.
  - assert (Hrest : ∀ b', b' ∈ hms → b' ∈ out_hypermodels_of h n)
      by (intros b' Hb'; apply Hout; by right).
    destruct (any_output_known h (q_self st) b) eqn:Ek; simpl.
    + intros (self' & [-> Hin]%add_hypermodel_Ok & F)%bind_Ok.
      destruct (take_hypermodel_bfs D P n b st Hinv Hn) as (H1 & H2 & H3 & H4);
        [apply Hout; by left|].
      apply (IH (pre ++ [b])) in F; [|done|done|done|].
      * by rewrite <-app_assoc in F.
      * intros b' [Hb'| ->%list_elem_of_singleton]%elem_of_app;
          [by apply H2, Hpre | done].
    + intros F. apply (IH (pre ++ [b])) in F; [|done|done|done|].
      * by rewrite <-app_assoc in F.
      * intros b' [Hb'| ->%list_elem_of_singleton]%elem_of_app;
          [by apply Hpre|].
        intros (s & Hs & Hm). exfalso.
        apply not_true_iff_false in Ek. apply Ek.
        unfold any_output_known. apply existsb_exists. exists s.
        split; [by apply list_elem_of_In|]. apply bool_decide_eq_true.
        by apply (bfs_known _ _ _ Hinv).
Qed.

Lemma sort_loop_bfs fuel D st st' :
  bfs_inv D D st → sort_loop h fuel st = Ok st' →
  ∃ D', bfs_inv D' D' st' ∧ q_queue st' = [].
Proof.
  revert D st. induction fuel as [|fuel IH]; intros D st Hinv; simpl; [done|].
  destruct (q_queue st) as [|n q] eqn:Eq; [intros [= <-]; by exists D|].
  intros (st1 & E & F)%bind_Ok.
  destruct Hinv as [K I Q Pe Dn Pr Af]. rewrite Eq in Q, Pe.
  apply (sort_hypermodels_bfs D (D ∪ {[n]}) n []) in E as [Hinv1 Hset];
    [|constructor; simpl; try done| | |].
  - apply (IH (D ∪ {[n]})) in F; [done|].
    destruct Hinv1 as [K1 I1 Q1 Pe1 Dn1 Pr1 Af1]. constructor; try done.
    intros n' b [Hn'| ->%elem_of_singleton]%elem_of_union Hb.
    + by eapply Dn1.
    + by apply Hset.
  - intros x Hx. apply Q. by right.
  - intros x Hx. destruct (Pe x Hx) as [?|[->|?]%elem_of_cons];
      [left|left|right]; set_solver.
  - simpl. apply Q. by left.
  - done.
  - intros b []%elem_of_nil.
Qed.
End bfs.

(** What the queue loop leaves, from the object [searched m self]. *)
Lemma sorted_hypermodels_bfs (h : Heap) (self self' : GraphAutoModel) m :
  sorted_hypermodels h (searched m self) = Ok self' →
  ∃ V : gset nat,
    (∀ i, i ∈ inputs self → i ∈ V)
    ∧ (∀ n b s, n ∈ V → b ∈ out_hypermodels_of h n →
                s ∈ outputs_of h b → s ∈ dom m →
                b ∈ hypermodels self' ∧ s ∈ V)
    ∧ (∀ x, x ∈ V → placed h (inputs self) (hypermodels self')
                           (length (hypermodels self')) x)
    ∧ (∀ i b, hypermodels self' !! i = Some b →
              ∃ n, b ∈ out_hypermodels_of h n
                   ∧ placed h (inputs self) (hypermodels self') i n).
Proof.
  unfold sorted_hypermodels. intros (st & E & [= <-])%bind_Ok.
  destruct (enqueue_inputs_spec (set_hypermodels ∅ [] (searched m self)))
    as (E1 & E2 & E3).
  apply (sort_loop_bfs h (inputs self) m _ ∅) in E as (D & Hinv & Hq).
  - destruct Hinv as [K I Q Pe Dn Pr Af]. exists (q_visited st).
    split; [done|]. split; [|done].
    intros n b s Hn Hb Hs Hm.
    destruct (Pe n Hn) as [HD|Hq']; [|rewrite Hq in Hq'; by inversion Hq'].
    destruct (Dn n b HD Hb) as [H1 H2]; [by exists s|]. split; [done|].
    by apply H2.
  - constructor; rewrite ?E1, ?E2, ?E3; simpl.
    + done.
    + intros i Hi. by apply elem_of_list_to_set.
    + intros x Hx. by apply elem_of_list_to_set.
    + intros x Hx%elem_of_list_to_set. by right.
    + intros n b []%elem_of_empty.
    + intros x Hx%elem_of_list_to_set. by left.
    + intros i b. by rewrite lookup_nil.
Qed.

(** A set of nodes that holds the declared inputs and is closed under the
    edges into numbered nodes holds every node on a path. *)
Lemma closed_holds_paths (h : Heap) (ins outs : list nat) (m : gmap nat nat)
    (V : gset nat) :
  (∀ x, x ∈ dom m ↔ on_path h ins outs x) →
  (∀ i, i ∈ ins → i ∈ V) →
  (∀ n b s, n ∈ V → b ∈ out_hypermodels_of h n → s ∈ outputs_of h b →
            s ∈ dom m → s ∈ V) →
  ∀ x, on_path h ins outs x → x ∈ V.
Proof.
  intros Hdom HV1 HV2 x [(i & Hi & Hr) Hx]. revert Hx. pattern x.
  eapply rtc_ind_r; [| |exact Hr].
  - intros _. by apply HV1.
  - intros y z Hy Hyz IH Hz.
    assert (reaches_output h outs y) as Hy' by by eapply reaches_output_step.
    apply IH in Hy'. unfold edge, successors in Hyz.
    apply list_elem_of_bind in Hyz as (b & Hz' & Hb).
    apply (HV2 y b z); [done|done|done|].
    apply Hdom. split; [|done]. exists i. split; [done|].
    eapply rtc_r; [done|]. unfold edge, successors.
    apply list_elem_of_bind. by exists b.
Qed.

(** Every node on a path from a declared input to a declared output is a
    declared input or an output of a hypermodel of the resolved list. *)
Lemma on_path_produced (h h' : Heap) (self self' : GraphAutoModel) x :
  _build_network h self = Ok (h', self') →
  on_path h (inputs self) (outputs self) x →
  x ∈ inputs self ∨ ∃ b, b ∈ hypermodels self' ∧ x ∈ outputs_of h b.
Proof.
  intros (m & E1 & _ & E3 & _)%build_network_Ok Hp.
  destruct (interested_nodes_spec h self m E1) as (Hdom & _ & _).
  destruct (sorted_hypermodels_bfs h self self' m E3)
    as (V & HV1 & HV2 & HV3 & _).
  assert (x ∈ V) as Hx.
  { apply (closed_holds_paths h (inputs self) (outputs self) m); try done.
    intros n b s Hn Hb Hs Hm. by apply (HV2 n b s). }
  destruct (HV3 x Hx) as [?|(j & p & _ & Hj & Hxp)]; [by left|].
  right. exists p. split; [by eapply list_elem_of_lookup_2 | done].
Qed.

(** The queue loop leaves no hypermodel of a path out: when a node [n] that
    a declared input leads to lists the hypermodel [b] in [out_hypermodels],
    and an output [s] of [b] leads to a declared output, then [b] is in
    [self.hypermodels] after [_build_network]. *)
Theorem path_hypermodels_are_resolved (h h' : Heap)
    (self self' : GraphAutoModel) n b s :
  _build_network h self = Ok (h', self') →
  from_input h (inputs self) n →
  b ∈ out_hypermodels_of h n →
  s ∈ outputs_of h b →
  reaches_output h (outputs self) s →
  b ∈ hypermodels self'.
Proof.
  intros E Hn Hb Hs Hro.
  assert (edge h n s) as He.
  { unfold edge, successors. apply list_elem_of_bind. by exists b. }
  assert (on_path h (inputs self) (outputs self) n) as Hpn.
  { split; [done|]. by eapply reaches_output_step. }
  assert (on_path h (inputs self) (outputs self) s) as Hps.
  { split; [|done]. destruct Hn as (i & Hi & Hr). exists i.
    split; [done|]. by eapply rtc_r. }
  apply build_network_Ok in E as (m & E1 & _ & E3 & _).
  destruct (interested_nodes_spec h self m E1) as (Hdom & _ & _).
  destruct (sorted_hypermodels_bfs h self self' m E3)
    as (V & HV1 & HV2 & _ & _).
  assert (∀ x, on_path h (inputs self) (outputs self) x → x ∈ V) as HV.
  { apply (closed_holds_paths h (inputs self) (outputs self) m); try done.
    intros n' b' s' Hn' Hb' Hs' Hm'. by apply (HV2 n' b' s'). }
  apply (HV2 n b s); [by apply HV|done|done|by apply Hdom].
Qed.

Lemma path_hypermodels_witness :
  from_input skip_heap [0] 2
  ∧ 2 ∈ out_hypermodels_of skip_heap 2
  ∧ 3 ∈ outputs_of skip_heap 2
  ∧ reaches_output skip_heap [3] 3
  ∧ ∃ h' self',
      _build_network skip_heap (declared [0] [3]) = Ok (h', self')
      ∧ 2 ∈ hypermodels self'.
Proof.
  assert (H1 : from_input skip_heap [0] 2).
  { exists 0. split; [left|]. apply rtc_l with 1.
    - vm_compute. left.
    - apply rtc_once. vm_compute. left. }
  assert (H2 : 2 ∈ out_hypermodels_of skip_heap 2) by (vm_compute; left).
  assert (H3 : 3 ∈ outputs_of skip_heap 2) by (vm_compute; left).
  assert (H4 : reaches_output skip_heap [3] 3).
  { exists 3. split; [left | apply rtc_refl]. }
  assert (R : ∃ h' self',
             _build_network skip_heap (declared [0] [3]) = Ok (h', self')).
  { eexists _, _. vm_compute. reflexivity. }
  split; [exact H1|]. split; [exact H2|]. split; [exact H3|].
  split; [exact H4|].
  destruct R as (h' & self' & R). exists h', self'. split; [exact R|].
  exact (path_hypermodels_are_resolved skip_heap h' (declared [0] [3]) self'
           2 2 3 R H1 H2 H3 H4).
Defined.

(** Every hypermodel of [self.hypermodels] was found in the
    [out_hypermodels] of a node that is a declared input or an output of a
    hypermodel standing earlier in the list: one such node, not every input
    of the hypermodel. *)
Theorem hypermodel_follows_a_producer (h h' : Heap)
    (self self' : GraphAutoModel) i b :
  _build_network h self = Ok (h', self') →
  hypermodels self' !! i = Some b →
  ∃ n, b ∈ out_hypermodels_of h n
       ∧ (n ∈ inputs self
          ∨ ∃ j p, j < i ∧ hypermodels self' !! j = Some p
                   ∧ n ∈ outputs_of h p).
Proof.
  intros (m & _ & _ & E3 & _)%build_network_Ok Hi.
  destruct (sorted_hypermodels_bfs h self self' m E3) as (V & _ & _ & _ & HV).
  by apply HV.
Qed.

Lemma hypermodel_follows_witness :
  ∃ h' self',
    _build_network skip_heap (declared [0] [3]) = Ok (h', self')
    ∧ hypermodels self' !! 2 = Some 1
    ∧ ∃ n, 1 ∈ out_hypermodels_of skip_heap n
           ∧ (n ∈ [0]
              ∨ ∃ j p, j < 2 ∧ hypermodels self' !! j = Some p
                       ∧ n ∈ outputs_of skip_heap p).
Proof.
  assert (R : ∃ h' self',
             _build_network skip_heap (declared [0] [3]) = Ok (h', self')
             ∧ hypermodels self' !! 2 = Some 1).
  { eexists _, _. split; vm_compute; reflexivity. }
  destruct R as (h' & self' & R1 & R2). exists h', self'.
  split; [exact R1|]. split; [exact R2|].
  exact (hypermodel_follows_a_producer skip_heap h' (declared [0] [3]) self'
           2 1 R1 R2).
Defined.

(** ** Inputs of the hypermodels of the order (claim C6) *)




(** ** The last loop of [_build_network]: [hypermodel.output_shape] *)


Lemma set_output_shapes_length (l : list nat) (h h' : Heap) :
  set_output_shapes l h = Ok h' →
  length (heap_hypermodels h') = length (heap_hypermodels h).
Proof.
  revert h. induction l as [|o l IH]; intros h; simpl; [by intros [= <-]|].
  destruct (in_hypermodels_of h o) as [|b bs]; [done|].
  intros ->%IH. simpl. apply length_alter.
Qed.





(** ** [build]: the calls of the hypermodels *)

Section build_facts.
Context {tensor HyperParameters keras_model : Type}.
Variable node_build : HyperParameters → nat → result tensor.
Variable hypermodel_build :
  HyperParameters → nat → list tensor → result (list tensor).
Variable keras_Model : list tensor → list tensor → result keras_model.
Variable hp_Choice :
  HyperParameters → string → list optimizer → result optimizer.
Variable model_compile :
  keras_model → optimizer → list metric → loss → result keras_model.
Variable h : Heap.
Variable self : GraphAutoModel.
Variable hp : HyperParameters.

(** The loop calls the hypermodels of its list in order, each at most once,
    and all of them when it ends without exception. *)
Lemma build_hypermodels_calls hms real_nodes calls calls' r :
  build_hypermodels hypermodel_build h self hp hms real_nodes calls
  = (calls', r) →
  ∃ called, calls' = calls ++ called
            ∧ called `prefix_of` hms
            ∧ ∀ real_nodes', r = Ok real_nodes' → called = hms.
Proof.
  revert real_nodes calls.
  induction hms as [|b hms IH]; intros real_nodes calls; simpl.
  - intros [= <- <-]. exists []. by rewrite app_nil_r.
  - destruct (real_nodes_of self real_nodes (inputs_of h b)) as [ins| |].
    + destruct (_ ≫= _) as [rn| |].
      * intros (called & -> & Hp & Hall)%IH. exists (b :: called).
        split; [by rewrite <-app_assoc|]. split; [by apply prefix_cons|].
        intros rn' Hr. by rewrite (Hall rn' Hr).
      * intros [= <- <-]. exists [b]. split; [done|].
        split; [by apply prefix_cons, prefix_nil|]. done.
      * intros [= <- <-]. exists [b]. split; [done|].
        split; [by apply prefix_cons, prefix_nil|]. done.
    + intros [= <- <-]. exists []. rewrite app_nil_r.
      split; [done|]. split; [apply prefix_nil|]. done.
    + intros [= <- <-]. exists []. rewrite app_nil_r.
      split; [done|]. split; [apply prefix_nil|]. done.
Qed.

Lemma build_calls calls r :
  build node_build hypermodel_build keras_Model hp_Choice model_compile
        h self hp = (calls, r) →
  calls `prefix_of` hypermodels self
  ∧ ∀ model, r = Ok model → calls = hypermodels self.
Proof.
  unfold build.
  destruct (build_inputs node_build self hp (inputs self) ∅)
    as [real_nodes| |].
  - destruct (build_hypermodels _ _ _ _ _ _ _) as [calls0 r0] eqn:E.
    apply build_hypermodels_calls in E as (called & -> & Hp & Hall).
    simpl. intros [= <- <-]. split; [done|].
    intros model Hm. destruct r0 as [rn| |]; [|done|done]. by eapply Hall.
  - intros [= <- <-]. split; [apply prefix_nil | done].
  - intros [= <- <-]. split; [apply prefix_nil | done].
Qed.

(** The model that [build] returns is the one that [model.compile] returned
    for the inferred metrics and loss. *)
Lemma build_compiled calls model :
  build node_build hypermodel_build keras_Model hp_Choice model_compile
        h self hp = (calls, Ok model) →
  ∃ ins outs model0 optimizer,
    keras_Model ins outs = Ok model0
    ∧ model_compile model0 optimizer (_infer_metrics h self)
                    (_infer_loss h self) = Ok model.
Proof.
  unfold build.
  destruct (build_inputs node_build self hp (inputs self) ∅)
    as [real_nodes| |]; [|done|done].
  destruct (build_hypermodels _ _ _ _ _ _ _) as [calls0 r0].
  intros [= _ E]. apply bind_Ok in E as (rn & _ & E).
  apply bind_Ok in E as (ins & _ & E).
  apply bind_Ok in E as (outs & _ & E). unfold build_model in E.
  apply bind_Ok in E as (model0 & E0 & E).
  apply bind_Ok in E as (opt & _ & E). by exists ins, outs, model0, opt.
Qed.
End build_facts.

(** For every collaborator, raising or not: on a resolved graph, a call of
    [build] calls the [build] of the hypermodels of a prefix of
    [self.hypermodels], in the order of that list, which holds no hypermodel
    twice; a call that returns a model has called every hypermodel of the
    list, each exactly once. *)
Theorem build_calls_a_prefix {tensor HyperParameters keras_model : Type}
    (node_build : HyperParameters → nat → result tensor)
    (hypermodel_build :
       HyperParameters → nat → list tensor → result (list tensor))
    (keras_Model : list tensor → list tensor → result keras_model)
    (hp_Choice : HyperParameters → string → list optimizer → result optimizer)
    (model_compile :
       keras_model → optimizer → list metric → loss → result keras_model)
    (h h' : Heap) (self self' : GraphAutoModel) (hp : HyperParameters)
    (calls : list nat) (r : result keras_model) :
  _build_network h self = Ok (h', self') →
  build node_build hypermodel_build keras_Model hp_Choice model_compile
        h' self' hp = (calls, r) →
  NoDup (hypermodels self')
  ∧ calls `prefix_of` hypermodels self'
  ∧ ∀ model, r = Ok model → calls = hypermodels self'.
Proof.
  intros (m & _ & _ & E & _)%build_network_Ok Hb.
  apply sorted_hypermodels_inv in E. split; [apply (sort_nodup _ _ _ E)|].
  by eapply build_calls.
Qed.

Lemma build_calls_a_prefix_witness :
  ∃ h' self' model,
    _build_network fork_heap (declared [0] [1]) = Ok (h', self')
    ∧ build (tensor := nat) (HyperParameters := unit) (keras_model := nat)
            (λ _ n, Ok n) (λ _ b _, Ok [b; b]) (λ _ _, Ok 0)
            (λ _ _ _, Ok Adam) (λ m _ _ _, Ok m) h' self' ()
      = ([0], Ok model)
    ∧ [0] = hypermodels self'.
Proof.
  assert (R : ∃ h' self' model,
             _build_network fork_heap (declared [0] [1]) = Ok (h', self')
             ∧ build (tensor := nat) (HyperParameters := unit)
                     (keras_model := nat)
                     (λ _ n, Ok n) (λ _ b _, Ok [b; b]) (λ _ _, Ok 0)
                     (λ _ _ _, Ok Adam) (λ m _ _ _, Ok m) h' self' ()
               = ([0], Ok model)).
  { eexists _, _, _. split; vm_compute; reflexivity. }
  destruct R as (h' & self' & model & R1 & R2).
  exists h', self', model. split; [exact R1|]. split; [exact R2|].
  exact (proj2 (proj2 (build_calls_a_prefix _ _ _ _ _ _ _ _ _ _ _ _ R1 R2))
           model eq_refl).
Defined.

(** ** [build]: where the loop over the hypermodels stops *)

(** Every input of a hypermodel of [l] is a declared input or an output of a
    hypermodel that stands earlier in [l]. *)
Definition available_first (h : Heap) (ins l : list nat) : Prop :=
  ∀ i b n, l !! i = Some b → n ∈ inputs_of h b → placed h ins l i n.

(** Position [i] of [l] is the first whose hypermodel has an input that is
    neither a declared input nor an output of an earlier hypermodel. *)
Definition first_unavailable (h : Heap) (ins l : list nat) (i : nat) : Prop :=
  (∃ b x, l !! i = Some b ∧ x ∈ inputs_of h b ∧ ¬ placed h ins l i x)
  ∧ ∀ j b n, j < i → l !! j = Some b → n ∈ inputs_of h b →
             placed h ins l j n.

Lemma first_unavailable_unique (h : Heap) (ins l : list nat) i j :
  first_unavailable h ins l i → first_unavailable h ins l j → i = j.
Proof.
  intros [(b & x & Hb & Hx & Hn) Hi] [(b' & x' & Hb' & Hx' & Hn') Hj].
  destruct (Nat.lt_trichotomy i j) as [Hlt|[->|Hlt]]; [|done|].
  - exfalso. apply Hn. by apply (Hj i b x).
  - exfalso. apply Hn'. by apply (Hi j b' x').
Qed.

Lemma first_unavailable_not_available (h : Heap) (ins l : list nat) i :
  first_unavailable h ins l i → ¬ available_first h ins l.
Proof. intros [(b & x & Hb & Hx & Hn) _] Ha. apply Hn. by apply (Ha i b x). Qed.

Section build_order.
Context {tensor HyperParameters keras_model : Type}.
Variable node_build : HyperParameters → nat → result tensor.
Variable hypermodel_build :
  HyperParameters → nat → list tensor → result (list tensor).
Variable keras_Model : list tensor → list tensor → result keras_model.
Variable hp_Choice :
  HyperParameters → string → list optimizer → result optimizer.
Variable model_compile :
  keras_model → optimizer → list metric → loss → result keras_model.
Variable h : Heap.
Variable self : GraphAutoModel.
Variable hp : HyperParameters.

Hypothesis Hinj : ∀ x y v,
  node_to_id self !! x = Some v → node_to_id self !! y = Some v → x = y.

(** [real_nodes] holds a tensor for the nodes of [A], and for no other node
    that has an identifier. *)
Definition held (rn : gmap nat tensor) (A : nat → Prop) : Prop :=
  ∀ n v, node_to_id self !! n = Some v → is_Some (rn !! v) ↔ A n.

Lemma getitem_Some {V} (d : gmap nat V) k v :
  d !! k = Some v → getitem d k = Ok v.
Proof. unfold getitem. by intros ->. Qed.

Lemma getitem_None {V} (d : gmap nat V) k :
  d !! k = None → getitem d k = Raise KeyError.
Proof. unfold getitem. by intros ->. Qed.

Lemma held_equiv rn (A B : nat → Prop) :
  (∀ n, A n ↔ B n) → held rn A → held rn B.
Proof. intros HAB HA n v Hn. by rewrite (HA n v Hn). Qed.

Lemma held_insert rn A n v t :
  held rn A → node_to_id self !! n = Some v →
  held (<[v := t]> rn) (λ x, A x ∨ x = n).
Proof.
  intros HA Hn x w Hx. destruct (decide (w = v)) as [->|Hne].
  - rewrite lookup_insert_eq. split; [|by eexists].
    intros _. right. by eapply Hinj.
  - rewrite lookup_insert_ne by done. rewrite (HA x w Hx).
    split; [by left|]. intros [?| ->]; [done|]. congruence.
Qed.

(** The list of the tensors of the nodes of [l]: it is built when every node
    has a tensor, and the lookup raises [KeyError] at a node without. *)
Lemma real_nodes_of_held rn A l :
  held rn A → (∀ n, n ∈ l → n ∈ dom (node_to_id self)) →
  ((∀ n, n ∈ l → A n) ∧ ∃ ts, real_nodes_of self rn l = Ok ts)
  ∨ ((∃ x, x ∈ l ∧ ¬ A x) ∧ real_nodes_of self rn l = Raise KeyError).
Proof.
  intros HA. induction l as [|n l IH]; intros Hl; simpl.
  - left. split; [by intros ? ?%elem_of_nil | by eexists].
  - assert (n ∈ dom (node_to_id self)) as [v Hv]%elem_of_dom
      by (apply Hl; by left).
    assert (∀ x, x ∈ l → x ∈ dom (node_to_id self)) as Hl'
      by (intros x Hx; apply Hl; by right).
    specialize (IH Hl'). rewrite (getitem_Some _ _ _ Hv).
    cbn [mbind result_mbind result_bind].
    destruct (rn !! v) as [t|] eqn:Et;
      [rewrite (getitem_Some _ _ _ Et) | rewrite (getitem_None _ _ Et)];
      cbn [mbind result_mbind result_bind].
    + assert (A n) as HAn by (apply (HA n v Hv); by eexists).
      destruct IH as [[Hall [ts ->]]|[(x & Hx & Hnx) ->]];
        cbn [mbind result_mbind result_bind].
      * left. split; [|by eexists].
        intros x [->|Hx]%elem_of_cons; [done | by apply Hall].
      * right. split; [|done]. exists x. split; [by right | done].
    + right. split; [|done]. exists n. split; [by left|].
      intros HAn. apply (HA n v Hv) in HAn as [t Ht]. congruence.
Qed.

Lemma build_inputs_held l rn A :
  held rn A → (∀ n, n ∈ l → n ∈ dom (node_to_id self)) →
  (∀ n, n ∈ l → ∃ t, node_build hp n = Ok t) →
  ∃ rn', build_inputs node_build self hp l rn = Ok rn'
         ∧ held rn' (λ x, A x ∨ x ∈ l).
Proof.
  revert rn A. induction l as [|n l IH]; intros rn A HA Hl Hb; simpl.
  - exists rn. split; [done|]. eapply held_equiv; [|done].
    intros x. split; [by left|]. by intros [?|?%elem_of_nil].
  - assert (n ∈ dom (node_to_id self)) as [v Hv]%elem_of_dom
      by (apply Hl; by left).
    destruct (Hb n) as [t Ht]; [by left|].
    rewrite (getitem_Some _ _ _ Hv). cbn [mbind result_mbind result_bind].
    rewrite Ht. cbn [mbind result_mbind result_bind].
    destruct (IH (<[v := t]> rn) (λ x, A x ∨ x = n)) as (rn' & E & H').
    { by apply held_insert. }
    { intros x Hx. apply Hl. by right. }
    { intros x Hx. apply Hb. by right. }
    exists rn'. split; [done|]. eapply held_equiv; [|done].
    intros x. simpl. rewrite elem_of_cons. tauto.
Qed.

Lemma record_outputs_held (l : list (nat * tensor)) rn A :
  held rn A → (∀ n, n ∈ l.*1 → n ∈ dom (node_to_id self)) →
  ∃ rn', record_outputs self l rn = Ok rn'
         ∧ held rn' (λ x, A x ∨ x ∈ l.*1).
Proof.
  revert rn A. induction l as [|[n t] l IH]; intros rn A HA Hl; simpl.
  - exists rn. split; [done|]. eapply held_equiv; [|done].
    intros x. split; [by left|]. by intros [?|?%elem_of_nil].
  - assert (n ∈ dom (node_to_id self)) as [v Hv]%elem_of_dom
      by (apply Hl; by left).
    rewrite (getitem_Some _ _ _ Hv). cbn [mbind result_mbind result_bind].
    destruct (IH (<[v := t]> rn) (λ x, A x ∨ x = n)) as (rn' & E & H').
    { by apply held_insert. }
    { intros x Hx. apply Hl. by right. }
    exists rn'. split; [done|]. eapply held_equiv; [|done].
    intros x. simpl. rewrite elem_of_cons. tauto.
Qed.

Lemma placed_next ins l i b n :
  l !! i = Some b →
  placed h ins l (S i) n ↔ placed h ins l i n ∨ n ∈ outputs_of h b.
Proof.
  intros Hi. unfold placed. split.
  - intros [?|(j & p & Hj & Hp & Hn)]; [by left; left|].
    destruct (decide (j = i)) as [->|Hne].
    + right. congruence.
    + left. right. exists j, p. split; [lia|done].
  - intros [[?|(j & p & Hj & Hp & Hn)]|Hn]; [by left| |].
    + right. exists j, p. split; [lia|done].
    + right. exists i, b. split; [lia|done].
Qed.

(** The loop over [self.hypermodels], from the hypermodel at position
    [length pre] of [l] on, when the [build] of every hypermodel returns a
    tensor for each output node: it ends with every hypermodel called, or it
    stops with [KeyError] before the first hypermodel with an input that has
    no tensor. *)
Lemma build_hypermodels_held ins l pre hms rn calls :
  l = pre ++ hms →
  (∀ b n, b ∈ hms → n ∈ inputs_of h b ∨ n ∈ outputs_of h b →
          n ∈ dom (node_to_id self)) →
  (∀ b ts, b ∈ hms →
           ∃ outs, hypermodel_build hp b ts = Ok outs
                   ∧ length (outputs_of h b) ≤ length outs) →
  held rn (placed h ins l (length pre)) →
  ((∀ i b n, hms !! i = Some b → n ∈ inputs_of h b →
             placed h ins l (length pre + i) n)
   ∧ ∃ rn', build_hypermodels hypermodel_build h self hp hms rn calls
            = (calls ++ hms, Ok rn')
            ∧ held rn' (placed h ins l (length l)))
  ∨ (∃ i, ((∃ b x, hms !! i = Some b ∧ x ∈ inputs_of h b
                   ∧ ¬ placed h ins l (length pre + i) x)
           ∧ ∀ j b n, j < i → hms !! j = Some b → n ∈ inputs_of h b →
                      placed h ins l (length pre + j) n)
          ∧ build_hypermodels hypermodel_build h self hp hms rn calls
            = (calls ++ take i hms, Raise KeyError)).
Proof.
  revert pre rn calls.
  induction hms as [|b hms IH]; intros pre rn calls Hl Hdom Hret Hrn; simpl.
  - left. split; [by intros i b n ?|]. exists rn.
    rewrite app_nil_r in *. by subst l.
  - assert (Hb : l !! length pre = Some b).
    { rewrite Hl. by rewrite lookup_app_r, Nat.sub_diag. }
    destruct (real_nodes_of_held rn (placed h ins l (length pre))
                (inputs_of h b) Hrn) as [[Hall [ts ->]]|[(x & Hx & Hnx) ->]].
    { intros n Hn. apply (Hdom b n); [by left | by left]. }
    + destruct (Hret b ts) as (outs & -> & Hlen); [by left|].
      cbn [mbind result_mbind result_bind].
      destruct (record_outputs_held (zip (outputs_of h b) outs) rn
                  (placed h ins l (length pre)) Hrn) as (rn1 & E1 & H1).
      { rewrite fst_zip by done. intros n Hn.
        apply (Hdom b n); [by left | by right]. }
      rewrite E1. rewrite fst_zip in H1 by done.
      destruct (IH (pre ++ [b]) rn1 (calls ++ [b])) as [[IH1 IH2]|IH3].
      { by rewrite <-app_assoc. }
      { intros b' n Hb'. apply Hdom. by right. }
      { intros b' ts' Hb'. apply Hret. by right. }
      { rewrite length_app. simpl. rewrite Nat.add_1_r.
        eapply held_equiv; [|exact H1]. intros n. symmetry.
        by apply placed_next. }
      * left. rewrite length_app in IH1. simpl in IH1. split.
        -- intros [|i] b' n Hi Hn.
           ++ injection Hi as <-. rewrite Nat.add_0_r. by apply Hall.
           ++ simpl in Hi.
              replace (length pre + S i) with (length pre + 1 + i) by lia.
              by eapply IH1.
        -- destruct IH2 as (rn' & E & H'). exists rn'.
           by rewrite <-app_assoc in E.
      * right. destruct IH3 as (i & [(b' & x & Hi & Hx & Hnx) Hbefore] & E).
        rewrite length_app in Hnx, Hbefore. simpl in Hnx, Hbefore.
        exists (S i). split; [split|].
        -- exists b', x. split; [done|]. split; [done|].
           by replace (length pre + S i) with (length pre + 1 + i) by lia.
        -- intros [|j] b'' n Hj Hb'' Hn.
           ++ injection Hb'' as <-. rewrite Nat.add_0_r. by apply Hall.
           ++ simpl in Hb''.
              replace (length pre + S j) with (length pre + 1 + j) by lia.
              apply (Hbefore j b'' n); [lia|done|done].
        -- simpl. by rewrite <-app_assoc in E.
    + right. exists 0. split; [split|].
      * exists b, x. split; [done|]. split; [done|].
        by rewrite Nat.add_0_r.
      * intros j b' n Hj. lia.
      * simpl. by rewrite app_nil_r.
Qed.

Hypothesis Hdom : ∀ b n,
  b ∈ hypermodels self → n ∈ inputs_of h b ∨ n ∈ outputs_of h b →
  n ∈ dom (node_to_id self).
Hypothesis Hins : ∀ n, n ∈ inputs self → n ∈ dom (node_to_id self).
Hypothesis Houts : ∀ n, n ∈ outputs self →
  n ∈ dom (node_to_id self)
  ∧ placed h (inputs self) (hypermodels self) (length (hypermodels self)) n.
Hypothesis Hnode : ∀ n, n ∈ inputs self → ∃ t, node_build hp n = Ok t.
Hypothesis Hbuild : ∀ b ts,
  b ∈ hypermodels self →
  ∃ outs, hypermodel_build hp b ts = Ok outs
          ∧ length (outputs_of h b) ≤ length outs.

(** The two ways in which [build] leaves the loop over the hypermodels. *)
Lemma build_outcome :
  (available_first h (inputs self) (hypermodels self)
   ∧ ∃ ins outs,
       build node_build hypermodel_build keras_Model hp_Choice model_compile
             h self hp
       = (hypermodels self,
          build_model keras_Model hp_Choice model_compile h self hp ins outs))
  ∨ (∃ i, first_unavailable h (inputs self) (hypermodels self) i
          ∧ build node_build hypermodel_build keras_Model hp_Choice
                  model_compile h self hp
            = (take i (hypermodels self), Raise KeyError)).
Proof.
  unfold build, available_first, first_unavailable.
  destruct (build_inputs_held (inputs self) ∅ (λ _, False))
    as (rn0 & E0 & H0); [|done|done|].
  { intros n v _. rewrite lookup_empty. split; [by intros [? ?] | done]. }
  rewrite E0.
  destruct (build_hypermodels_held (inputs self) (hypermodels self) []
              (hypermodels self) rn0 [])
    as [[L1 (rn' & -> & L2)]|(i & L3 & ->)]; [done|done|done| | |].
  { eapply held_equiv; [|exact H0]. intros n. unfold placed. simpl. split.
    - intros [[]|?]. by left.
    - intros [?|(j & p & Hj & _)]; [by right | lia]. }
  - left. split; [exact L1|]. simpl.
    cbn [mbind result_mbind result_bind].
    destruct (real_nodes_of_held rn' _ (inputs self) L2 Hins)
      as [[_ [ts1 ->]]|[(x & Hx & Hnx) _]].
    2: { exfalso. apply Hnx. by left. }
    cbn [mbind result_mbind result_bind].
    destruct (real_nodes_of_held rn' _ (outputs self) L2
                (λ n Hn, proj1 (Houts n Hn)))
      as [[_ [ts2 ->]]|[(x & Hx & Hnx) _]].
    2: { exfalso. by apply Hnx, Houts. }
    cbn [mbind result_mbind result_bind]. by exists ts1, ts2.
  - right. exists i. split; [exact L3 | done].
Qed.

Lemma build_first_unavailable i :
  first_unavailable h (inputs self) (hypermodels self) i →
  build node_build hypermodel_build keras_Model hp_Choice model_compile
        h self hp
  = (take i (hypermodels self), Raise KeyError).
Proof.
  intros Hi. destruct build_outcome as [[Ha _]|(j & Hj & E)].
  - by apply first_unavailable_not_available in Hi.
  - by rewrite (first_unavailable_unique _ _ _ _ _ Hi Hj).
Qed.
End build_order.

(** What [build] needs of a resolved graph. *)
Lemma resolved_build_facts (h h' : Heap) (self self' : GraphAutoModel) :
  _build_network h self = Ok (h', self') →
  (∀ x y v, node_to_id self' !! x = Some v →
            node_to_id self' !! y = Some v → x = y)
  ∧ (∀ b n, b ∈ hypermodels self' →
            n ∈ inputs_of h' b ∨ n ∈ outputs_of h' b →
            n ∈ dom (node_to_id self'))
  ∧ (∀ n, n ∈ inputs self' → n ∈ dom (node_to_id self'))
  ∧ (∀ n, n ∈ outputs self' →
          n ∈ dom (node_to_id self')
          ∧ placed h' (inputs self') (hypermodels self')
                   (length (hypermodels self')) n).
Proof.
  intros E.
  assert (Hdense := build_network_kept h dense_ids dense_ids_add_node
                      self h' self' dense_ids_empty E).
  assert (Hprod := λ x, on_path_produced h h' self self' x E).
  apply build_network_Ok in E as (m & E1 & E2 & E3 & E4).
  destruct (interested_nodes_spec h self m E1) as (Hm & _ & _).
  assert (T := set_output_shapes_topology _ _ _ E4).
  destruct T as [_ _ Tout Tin _].
  apply sorted_hypermodels_inv in E3 as [Si So _ Sd _ Sk _].
  simpl in Si, So, Sd. rewrite check_connected_Ok in E2.
  split; [apply (dense_inj _ Hdense)|]. split; [|split].
  - intros b n Hb [Hn|Hn].
    + rewrite Tin in Hn. by apply (Sk b n).
    + rewrite Tout in Hn. apply Sd. right. by exists b.
  - intros n Hn. rewrite Si in Hn. apply Sd. left. apply E2.
    apply elem_of_app. by left.
  - intros n Hn. rewrite So in Hn.
    assert (n ∈ dom m) as Hd by (apply E2, elem_of_app; by right).
    split; [apply Sd; by left|].
    destruct (Hprod n) as [Hi|(b & Hb & Hnb)]; [by apply Hm| |].
    + left. by rewrite Si.
    + right. apply list_elem_of_lookup_1 in Hb as [j Hj]. exists j, b.
      split; [by eapply lookup_lt_Some|]. split; [done|]. by rewrite Tout.
Qed.



(** ** [build] on the skip connection (claim C7) *)

(** C7 fails on the resolved skip connection, through the order of
    [self.hypermodels] that [_build_network] leaves there.  The store is
    acyclic and resolves, to the order [0; 2; 1].  Whatever the [build]
    methods and the tensor library do, a call of [build] calls no hypermodel
    but hypermodel 0 and returns no model; when the [build] methods return a
    tensor for each output node, it calls hypermodel 0 and stops with
    [KeyError] on the inputs of hypermodel 2: hypermodels 2 and 1 are not
    called.  The last part evaluates the call where a tensor is a number, a
    node builds to its own reference and a hypermodel to one tensor. *)
Theorem C7_build_on_skip_connection
    {tensor HyperParameters keras_model : Type} :
  acyclic skip_heap
  ∧ ∃ h' self',
      _build_network skip_heap (declared [0] [3]) = Ok (h', self')
      ∧ hypermodels self' = [0; 2; 1]
      ∧ (∀ (node_build : HyperParameters → nat → result tensor)
           (hypermodel_build :
              HyperParameters → nat → list tensor → result (list tensor))
           (keras_Model : list tensor → list tensor → result keras_model)
           (hp_Choice :
              HyperParameters → string → list optimizer → result optimizer)
           (model_compile :
              keras_model → optimizer → list metric → loss
              → result keras_model)
           (hp : HyperParameters),
           (∀ calls r,
              build node_build hypermodel_build keras_Model hp_Choice
                    model_compile h' self' hp = (calls, r) →
              calls `prefix_of` [0] ∧ ∀ model, r ≠ Ok model)
           ∧ ((∀ n, n ∈ inputs self' → ∃ t, node_build hp n = Ok t) →
              (∀ b ts, b ∈ hypermodels self' →
                       ∃ outs, hypermodel_build hp b ts = Ok outs
                               ∧ length (outputs_of h' b) ≤ length outs) →
              build node_build hypermodel_build keras_Model hp_Choice
                    model_compile h' self' hp
              = ([0], Raise KeyError)))
      ∧ build (tensor := nat) (HyperParameters := unit) (keras_model := nat)
              (λ _ n, Ok n) (λ _ b _, Ok [b]) (λ _ _, Ok 0)
              (λ _ _ _, Ok Adam) (λ m _ _ _, Ok m) h' self' ()
        = ([0], Raise KeyError).
Proof.
  split; [apply increasing_edges_acyclic, skip_heap_edges|].
  assert (R : ∃ h' self',
             _build_network skip_heap (declared [0] [3]) = Ok (h', self')
             ∧ hypermodels self' = [0; 2; 1]
             ∧ inputs self' = [0]
             ∧ node_to_id self' !! 0 = Some 3
             ∧ node_to_id self' !! 1 = Some 2
             ∧ node_to_id self' !! 2 = Some 1
             ∧ inputs_of h' 0 = [0]
             ∧ outputs_of h' 0 = [1]
             ∧ inputs_of h' 2 = [0; 2]
             ∧ build (tensor := nat) (HyperParameters := unit)
                     (keras_model := nat)
                     (λ _ n, Ok n) (λ _ b _, Ok [b]) (λ _ _, Ok 0)
                     (λ _ _ _, Ok Adam) (λ m _ _ _, Ok m) h' self' ()
               = ([0], Raise KeyError)).
  { eexists _, _. split; [vm_compute; reflexivity|].
    repeat split; vm_compute; reflexivity. }
  destruct R as (h' & self' & R1 & Hhm & Hin & I0 & I1 & I2 & B0 & O0 & B2
                 & Ec).
  exists h', self'. split; [exact R1|]. split; [exact Hhm|].
  split; [|exact Ec].
  intros node_build hypermodel_build keras_Model hp_Choice model_compile hp.
  assert (Hmerge : ∀ rn : gmap nat tensor,
            rn !! 1 = None → real_nodes_of self' rn [0; 2] = Raise KeyError).
  { intros rn Hrn. simpl. rewrite (getitem_Some _ _ _ I0).
    cbn [mbind result_mbind result_bind].
    destruct (rn !! 3) as [t|] eqn:E3;
      [rewrite (getitem_Some _ _ _ E3) | rewrite (getitem_None _ _ E3)];
      cbn [mbind result_mbind result_bind]; [|done].
    rewrite (getitem_Some _ _ _ I2). cbn [mbind result_mbind result_bind].
    by rewrite (getitem_None _ _ Hrn). }
  split.
  - intros calls r. unfold build. rewrite Hin, Hhm. simpl.
    rewrite (getitem_Some _ _ _ I0). cbn [mbind result_mbind result_bind].
    destruct (node_build hp 0) as [t0| |];
      cbn [mbind result_mbind result_bind].
    2,3: intros [= <- <-]; split; [apply prefix_nil | done].
    rewrite B0. simpl. rewrite (getitem_Some _ _ _ I0).
    cbn [mbind result_mbind result_bind].
    rewrite (getitem_Some _ 3 t0) by apply lookup_insert_eq.
    cbn [mbind result_mbind result_bind]. rewrite O0.
    destruct (hypermodel_build hp 0 [t0]) as [outs| |];
      cbn [mbind result_mbind result_bind].
    2,3: intros [= <- <-]; split; [done | done].
    assert (∃ rn1 : gmap nat tensor,
              record_outputs self' (zip [1] outs) (<[3 := t0]> ∅) = Ok rn1
              ∧ rn1 !! 1 = None) as (rn1 & -> & Hrn1).
    { destruct outs as [|t1 outs]; simpl.
      - eexists. split; [done|]. by rewrite lookup_insert_ne.
      - rewrite (getitem_Some _ _ _ I1).
        cbn [mbind result_mbind result_bind]. eexists. split; [done|].
        by rewrite !lookup_insert_ne. }
    rewrite B2.
    rewrite (Hmerge rn1 Hrn1). intros [= <- <-]. split; done.
  - intros Hnode Hbuild.
    destruct (resolved_build_facts skip_heap h' (declared [0] [3]) self' R1)
      as (Hinj & Hdom & Hi & Ho).
    rewrite (build_first_unavailable node_build hypermodel_build keras_Model
               hp_Choice model_compile h' self' hp
               Hinj Hdom Hi Ho Hnode Hbuild 1); [by rewrite Hhm|].
    rewrite Hhm, Hin. split.
    + exists 2, 2. split; [done|]. split; [rewrite B2; by right; left|].
      intros [H0|(j & p & Hj & Hp & Hn)].
      * apply list_elem_of_singleton in H0. discriminate.
      * destruct j as [|j]; [|lia]. injection Hp as <-.
        rewrite O0 in Hn. apply list_elem_of_singleton in Hn. discriminate.
    + intros j b n Hj Hb Hn. destruct j as [|j]; [|lia].
      injection Hb as <-. rewrite B0 in Hn. by left.
Qed.

(** ** Metrics and loss (claim C9) *)

(** C9 fails on the metric of a classification graph.  On the chain with a
    [ClassificationHead], [_infer_metrics] returns the class
    [tf.keras.metrics.Accuracy], which is not categorical accuracy, next to
    the loss [categorical_crossentropy]; and so on every list that holds a
    [ClassificationHead].  The rest of the claim holds: without such a
    hypermodel both are the mean squared error; metric and loss depend on
    the classes of the hypermodels of the resolved list only; and the model
    that [build] returns is the one that [model.compile] returned for
    them. *)
Theorem C9_metrics_and_loss {tensor HyperParameters keras_model : Type} :
  (∃ h' self',
     _build_network (chain_heap "head" None None ClassificationHead)
                    (declared [0] [1]) = Ok (h', self')
     ∧ _infer_metrics h' self' = [Accuracy]
     ∧ _infer_metrics h' self' ≠ [categorical_accuracy]
     ∧ _infer_loss h' self' = categorical_crossentropy)
  ∧ (∀ h self,
       (∃ b, b ∈ hypermodels self
             ∧ isinstance_ClassificationHead h b = true) →
       _infer_metrics h self = [Accuracy]
       ∧ _infer_metrics h self ≠ [categorical_accuracy]
       ∧ _infer_loss h self = categorical_crossentropy)
  ∧ (∀ h self,
       (∀ b, b ∈ hypermodels self →
             isinstance_ClassificationHead h b = false) →
       _infer_metrics h self = [mse]
       ∧ _infer_loss h self = mean_squared_error)
  ∧ (∀ h self h2 self2,
       isinstance_ClassificationHead h <$> hypermodels self
       = isinstance_ClassificationHead h2 <$> hypermodels self2 →
       _infer_metrics h self = _infer_metrics h2 self2
       ∧ _infer_loss h self = _infer_loss h2 self2)
  ∧ (∀ (node_build : HyperParameters → nat → result tensor)
       (hypermodel_build :
          HyperParameters → nat → list tensor → result (list tensor))
       (keras_Model : list tensor → list tensor → result keras_model)
       (hp_Choice :
          HyperParameters → string → list optimizer → result optimizer)
       (model_compile :
          keras_model → optimizer → list metric → loss → result keras_model)
       h self hp calls model,
       build node_build hypermodel_build keras_Model hp_Choice model_compile
             h self hp = (calls, Ok model) →
       ∃ ins outs model0 optimizer,
         keras_Model ins outs = Ok model0
         ∧ model_compile model0 optimizer (_infer_metrics h self)
                         (_infer_loss h self) = Ok model).
Proof.
  assert (Hhead : ∀ h self,
            (∃ b, b ∈ hypermodels self
                  ∧ isinstance_ClassificationHead h b = true) →
            _infer_metrics h self = [Accuracy]
            ∧ _infer_metrics h self ≠ [categorical_accuracy]
            ∧ _infer_loss h self = categorical_crossentropy).
  { intros h self (b & Hb & Hc). unfold _infer_metrics, _infer_loss.
    assert (existsb (isinstance_ClassificationHead h) (hypermodels self)
            = true) as ->; [|done].
    apply existsb_exists. exists b. split; [by apply list_elem_of_In | done]. }
  split; [|split; [exact Hhead|split; [|split]]].
  - assert (R : ∃ h' self',
               _build_network (chain_heap "head" None None ClassificationHead)
                              (declared [0] [1]) = Ok (h', self')
               ∧ 0 ∈ hypermodels self'
               ∧ isinstance_ClassificationHead h' 0 = true).
    { eexists _, _. split; [vm_compute; reflexivity|].
      split; [left | vm_compute; reflexivity]. }
    destruct R as (h' & self' & R1 & R2 & R3). exists h', self'.
    split; [exact R1|]. apply Hhead. by exists 0.
  - intros h self Hall. unfold _infer_metrics, _infer_loss.
    assert (existsb (isinstance_ClassificationHead h) (hypermodels self)
            = false) as ->; [|done].
    apply not_true_iff_false. intros (b & Hb & Hc)%existsb_exists.
    apply list_elem_of_In in Hb. rewrite (Hall b Hb) in Hc. done.
  - intros h self h2 self2 Heq. unfold _infer_metrics, _infer_loss.
    assert (∀ (f g : nat → bool) l1 l2,
              f <$> l1 = g <$> l2 → existsb f l1 = existsb g l2) as Hex.
    { intros f g l1. induction l1 as [|x l1 IH]; intros [|y l2]; simpl;
        try done.
      intros [= -> Hl]. by rewrite (IH l2 Hl). }
    by rewrite (Hex _ _ _ _ Heq).
  - intros node_build hypermodel_build keras_Model hp_Choice model_compile
      h self hp calls model Hb.
    by eapply build_compiled.
Qed.

(** ** [_add_hypermodel] twice *)

Lemma set_node_to_id_same (self : GraphAutoModel) :
  set_node_to_id (node_to_id self) self = self.
Proof. by destruct self. Qed.

Lemma add_nodes_known (l : list nat) (m : gmap nat nat) :
  (∀ n, n ∈ l → n ∈ dom m) → foldl (λ m n, _add_node n m) m l = m.
Proof.
  induction l as [|n l IH]; intros Hl; simpl; [done|].
  rewrite add_node_known by (apply Hl; by left).
  apply IH. intros x Hx. apply Hl. by right.
Qed.

(** A second [_add_hypermodel] of the same hypermodel changes nothing: the
    hypermodel is not appended again, it keeps its identifier, and no node
    gets a new identifier. *)
Theorem add_hypermodel_idempotent (h : Heap) (b : nat)
    (self self' : GraphAutoModel) :
  _add_hypermodel h b self = Ok self' → _add_hypermodel h b self' = Ok self'.
Proof.
  intros [-> Hin]%add_hypermodel_Ok.
  assert (Hsame : with_hypermodel h b (with_hypermodel h b self)
                  = with_hypermodel h b self).
  { unfold with_hypermodel at 1.
    destruct (decide (b ∈ hypermodels (with_hypermodel h b self)))
      as [_|Hn].
    - rewrite add_nodes_known; [apply set_node_to_id_same|].
      intros n Hn. rewrite with_hypermodel_dom. set_solver.
    - exfalso. apply Hn, elem_of_with_hypermodel. by right. }
  apply add_hypermodel_Ok. rewrite Hsame. done.
Qed.

Lemma add_hypermodel_idempotent_witness :
  ∃ self',
    _add_hypermodel fork_heap 0 (set_node_to_id {[0 := 0]} (declared [0] [1]))
    = Ok self'
    ∧ _add_hypermodel fork_heap 0 self' = Ok self'.
Proof.
  assert (R : ∃ self',
             _add_hypermodel fork_heap 0
               (set_node_to_id {[0 := 0]} (declared [0] [1])) = Ok self').
  { eexists. vm_compute. reflexivity. }
  destruct R as (self' & R). exists self'. split; [exact R|].
  exact (add_hypermodel_idempotent fork_heap 0 _ self' R).
Defined.

(** ** [AutoModel.fit]: the shapes of the declared nodes

    The first part of [fit] (lines 53-61) reads the shapes of the training
    arrays and writes the shapes of the declared nodes.  An array is
    represented by its shape; [x] and [y] are the lists of arrays that
    [format_inputs], a function outside these sources, returns. *)

(** [node.shape = s] on the object [n] of the store. *)
Definition set_shape (n : nat) (s : list nat) (h : Heap) : Heap :=
  {| heap_nodes :=
       alter (λ nd, HyperNode.mk (Some s) (HyperNode.in_hypermodels nd)
                                 (HyperNode.out_hypermodels nd))
             n (heap_nodes h);
     heap_hypermodels := heap_hypermodels h |}.

(** [if len(y_input.shape) == 1:
       y_input = np.reshape(y_input, y_input.shape + (1,))]
    and then [y_input.shape[1:]]. *)
Definition label_shape (y_input : list nat) : list nat :=
  let y_input :=
    if decide (length y_input = 1) then y_input ++ [1] else y_input in
  drop 1 y_input.

(** [for x_input, input_node in zip(x, self.inputs):
       input_node.shape = x_input.shape[1:]] *)
Definition fit_input_shapes (x : list (list nat)) (self : GraphAutoModel)
    (h : Heap) : Heap :=
  foldl (λ h p, set_shape p.2 (drop 1 p.1) h) h (zip x (inputs self)).

(** [for y_input, output_node in zip(y, self.outputs): ...] *)
Definition fit_output_shapes (y : list (list nat)) (self : GraphAutoModel)
    (h : Heap) : Heap :=
  foldl (λ h p, set_shape p.2 (label_shape p.1) h) h (zip y (outputs self)).

Definition fit_shapes (x y : list (list nat)) (self : GraphAutoModel)
    (h : Heap) : Heap :=
  fit_output_shapes y self (fit_input_shapes x self h).

Section write_shapes.
Variable f : list nat → list nat.

Definition write_shapes (l : list (list nat * nat)) (h : Heap) : Heap :=
  foldl (λ h p, set_shape p.2 (f p.1) h) h l.

Lemma set_shape_node n s h n' :
  node_at (set_shape n s h) n'
  = if decide (n = n' ∧ n < length (heap_nodes h))
    then HyperNode.mk (Some s) (in_hypermodels_of h n')
                      (out_hypermodels_of h n')
    else node_at h n'.
Proof.
  unfold node_at, set_shape, in_hypermodels_of, out_hypermodels_of, node_at.
  simpl. destruct (decide (n = n')) as [->|Hne].
  - rewrite list_lookup_alter_eq.
    destruct (heap_nodes h !! n') as [nd|] eqn:E; simpl.
    + apply lookup_lt_Some in E. by rewrite decide_True.
    + apply lookup_ge_None in E. rewrite decide_False; [done|lia].
  - rewrite list_lookup_alter_ne by done. rewrite decide_False; [done|].
    by intros [? _].
Qed.

Lemma set_shape_links n s h n' :
  in_hypermodels_of (set_shape n s h) n' = in_hypermodels_of h n'
  ∧ out_hypermodels_of (set_shape n s h) n' = out_hypermodels_of h n'.
Proof.
  unfold in_hypermodels_of, out_hypermodels_of. rewrite set_shape_node.
  by destruct (decide _).
Qed.

Lemma write_shapes_hypermodels l h :
  heap_hypermodels (write_shapes l h) = heap_hypermodels h.
Proof.
  unfold write_shapes. revert h.
  induction l as [|p l IH]; intros h; simpl; [done|]. by rewrite IH.
Qed.

Lemma write_shapes_length l h :
  length (heap_nodes (write_shapes l h)) = length (heap_nodes h).
Proof.
  unfold write_shapes. revert h.
  induction l as [|p l IH]; intros h; simpl; [done|].
  rewrite IH. simpl. apply length_alter.
Qed.

Lemma write_shapes_links l h n :
  in_hypermodels_of (write_shapes l h) n = in_hypermodels_of h n
  ∧ out_hypermodels_of (write_shapes l h) n = out_hypermodels_of h n.
Proof.
  unfold write_shapes. revert h.
  induction l as [|p l IH]; intros h; simpl; [done|].
  destruct (IH (set_shape p.2 (f p.1) h)) as [-> ->].
  apply set_shape_links.
Qed.

(** The nodes that the loop does not name are as before. *)
Lemma write_shapes_other l h n :
  (∀ k a, l !! k ≠ Some (a, n)) →
  node_at (write_shapes l h) n = node_at h n.
Proof.
  unfold write_shapes. revert h.
  induction l as [|[a n0] l IH]; intros h Hl; simpl; [done|].
  rewrite IH.
  - rewrite set_shape_node. simpl. rewrite decide_False; [done|].
    intros [-> _]. by apply (Hl 0 a).
  - intros k a'. apply (Hl (S k) a').
Qed.

(** The last write to a node wins. *)
Lemma write_shapes_last l h k a n :
  l !! k = Some (a, n) →
  (∀ k' a', k < k' → l !! k' ≠ Some (a', n)) →
  n < length (heap_nodes h) →
  shape_of (write_shapes l h) n = Some (f a).
Proof.
  revert h k. induction l as [|[a0 n0] l IH]; intros h k; [done|].
  destruct k as [|k]; simpl.
  - intros [= -> ->] Hlast Hn. unfold shape_of.
    change (write_shapes ((a, n) :: l) h)
      with (write_shapes l (set_shape n (f a) h)).
    rewrite write_shapes_other.
    + rewrite set_shape_node. simpl. by rewrite decide_True.
    + intros k' a'. apply (Hlast (S k') a'). lia.
  - intros Hk Hlast Hn.
    change (write_shapes ((a0, n0) :: l) h)
      with (write_shapes l (set_shape n0 (f a0) h)).
    apply (IH _ k); [done| |].
    + intros k' a' Hlt. apply (Hlast (S k') a'). lia.
    + simpl. by rewrite length_alter.
Qed.
End write_shapes.

Lemma lookup_zip_Some' {A B} (l : list A) (k : list B) i a b :
  zip l k !! i = Some (a, b) ↔ l !! i = Some a ∧ k !! i = Some b.
Proof.
  revert k i. induction l as [|x l IH]; intros [|y k] [|i]; simpl;
    try (split; [done | by intros [? ?]]).
  - split; [by intros [= -> ->] | by intros [[= ->] [= ->]]].
  - apply IH.
Qed.

(** After the first part of [fit]: a declared output has the shape of its
    label array without the first axis, where an array of rank 1 counts as a
    column ([(n,)] gives [(1,)]); a declared input that the outputs do not
    overwrite has the shape of its data array without the first axis; [zip]
    stops at the shorter list, and a node that is named twice keeps the last
    shape; every other node is as before. *)
Theorem fit_sets_shapes (x y : list (list nat)) (self : GraphAutoModel)
    (h : Heap) :
  (∀ k o ys,
     outputs self !! k = Some o → y !! k = Some ys →
     (∀ k', k < k' < length y → outputs self !! k' ≠ Some o) →
     o < length (heap_nodes h) →
     shape_of (fit_shapes x y self h) o = Some (label_shape ys)
     ∧ (length ys = 1 → label_shape ys = [1])
     ∧ (length ys ≠ 1 → label_shape ys = drop 1 ys))
  ∧ (∀ k i xs,
       inputs self !! k = Some i → x !! k = Some xs →
       (∀ k', k < k' < length x → inputs self !! k' ≠ Some i) →
       (∀ k', k' < length y → outputs self !! k' ≠ Some i) →
       i < length (heap_nodes h) →
       shape_of (fit_shapes x y self h) i = Some (drop 1 xs))
  ∧ (∀ n,
       (∀ k, k < length x → inputs self !! k ≠ Some n) →
       (∀ k, k < length y → outputs self !! k ≠ Some n) →
       node_at (fit_shapes x y self h) n = node_at h n).
Proof.
  unfold fit_shapes, fit_output_shapes, fit_input_shapes.
  change (foldl (λ h p, set_shape p.2 (label_shape p.1) h))
    with (λ h l, write_shapes label_shape l h).
  change (foldl (λ h p, set_shape p.2 (drop 1 p.1) h))
    with (λ h l, write_shapes (drop 1) l h).
  cbv beta.
  assert (Hnot : ∀ (a : list (list nat)) (l : list nat) (n : nat),
            (∀ k, k < length a → l !! k ≠ Some n) →
            ∀ k v, zip a l !! k ≠ Some (v, n)).
  { intros a l n Hn k v [Ha Hl]%lookup_zip_Some'.
    apply (Hn k); [by eapply lookup_lt_Some | done]. }
  split; [|split].
  - intros k o ys Ho Hy Hlast Hlen. split; [|split].
    + apply (write_shapes_last label_shape _ _ k ys o).
      * by apply lookup_zip_Some'.
      * intros k' a' Hlt [Ha Hl]%lookup_zip_Some'. apply (Hlast k'); [|done].
        split; [done|]. by eapply lookup_lt_Some.
      * by rewrite write_shapes_length.
    + intros Hys. unfold label_shape. rewrite decide_True by done.
      destruct ys as [|? [|? ?]]; done.
    + intros Hys. unfold label_shape. by rewrite decide_False.
  - intros k i xs Hi Hx Hlast Hout Hlen. unfold shape_of.
    rewrite write_shapes_other by by apply Hnot.
    apply (write_shapes_last (drop 1) _ _ k xs i); [| |done].
    + by apply lookup_zip_Some'.
    + intros k' a' Hlt [Ha Hl]%lookup_zip_Some'. apply (Hlast k'); [|done].
      split; [done|]. by eapply lookup_lt_Some.
  - intros n Hin Hout.
    rewrite write_shapes_other by by apply Hnot.
    apply write_shapes_other. by apply Hnot.
Qed.

Lemma fit_sets_shapes_witness :
  shape_of (fit_shapes [[600; 28; 28]] [[600]] (declared [0] [1])
              (chain_heap "dense" None None OtherHyperModel)) 1
  = Some [1].
Proof.
  refine (eq_trans
            (proj1 (proj1 (fit_sets_shapes [[600; 28; 28]] [[600]]
                             (declared [0] [1])
                             (chain_heap "dense" None None OtherHyperModel))
                      0 1 [600] eq_refl eq_refl _ _))
            eq_refl).
  - intros k' Hk'. simpl in Hk'. lia.
  - simpl. lia.
Defined.

(** The first part of [fit] writes shapes of nodes only.  Every hypermodel,
    with the [output_shape] that [_build_network] stored at construction, is
    as before: [output_shape] is not refreshed from the training data.  The
    topology is as before, and [_build_network] on the new store returns the
    resolved object again. *)
Theorem fit_keeps_resolution (h h' : Heap) (self self' : GraphAutoModel)
    (x y : list (list nat)) :
  _build_network h self = Ok (h', self') →
  (∀ b, hypermodel_at (fit_shapes x y self' h') b = hypermodel_at h' b)
  ∧ same_topology (fit_shapes x y self' h') h'
  ∧ ∃ h'', _build_network (fit_shapes x y self' h') self' = Ok (h'', self').
Proof.
  intros E.
  assert (Hhm : heap_hypermodels (fit_shapes x y self' h')
                = heap_hypermodels h').
  { unfold fit_shapes, fit_output_shapes, fit_input_shapes.
    change (foldl (λ h p, set_shape p.2 (label_shape p.1) h))
      with (λ h l, write_shapes label_shape l h).
    change (foldl (λ h p, set_shape p.2 (drop 1 p.1) h))
      with (λ h l, write_shapes (drop 1) l h).
    cbv beta. by rewrite !write_shapes_hypermodels. }
  assert (Hlinks : ∀ n,
            in_hypermodels_of (fit_shapes x y self' h') n
            = in_hypermodels_of h' n
            ∧ out_hypermodels_of (fit_shapes x y self' h') n
              = out_hypermodels_of h' n).
  { intros n. unfold fit_shapes, fit_output_shapes, fit_input_shapes.
    change (foldl (λ h p, set_shape p.2 (label_shape p.1) h))
      with (λ h l, write_shapes label_shape l h).
    change (foldl (λ h p, set_shape p.2 (drop 1 p.1) h))
      with (λ h l, write_shapes (drop 1) l h).
    cbv beta.
    destruct (write_shapes_links label_shape (zip y (outputs self'))
                (write_shapes (drop 1) (zip x (inputs self')) h') n)
      as [-> ->].
    apply write_shapes_links. }
  assert (Hat : ∀ b, hypermodel_at (fit_shapes x y self' h') b
                     = hypermodel_at h' b).
  { intros b. unfold hypermodel_at. by rewrite Hhm. }
  assert (T : same_topology (fit_shapes x y self' h') h').
  { constructor; intros n; try apply Hlinks;
      unfold outputs_of, inputs_of, name_of; by rewrite Hat. }
  split; [done|]. split; [done|].
  assert (E' := E). apply build_network_Ok in E' as (m & _ & _ & E3 & E4).
  apply sorted_hypermodels_inv in E3.
  eapply (build_network_topology h _ self self'); [| | |exact E].
  - eapply same_topology_trans; [|apply same_topology_sym, T].
    by apply same_topology_sym, (set_output_shapes_topology _ _ _ E4).
  - by rewrite (sort_inputs _ _ _ E3).
  - by rewrite (sort_outputs _ _ _ E3).
Qed.

Lemma fit_keeps_resolution_witness :
  ∃ h' self',
    _build_network (chain_heap "dense" None (Some [10]) OtherHyperModel)
                   (declared [0] [1]) = Ok (h', self')
    ∧ shape_of (fit_shapes [[600; 28; 28]] [[600]] self' h') 1
      = Some [1]
    ∧ HyperModel.output_shape
        (hypermodel_at (fit_shapes [[600; 28; 28]] [[600]] self' h') 0)
      = Some [10]
    ∧ hypermodel_at (fit_shapes [[600; 28; 28]] [[600]] self' h') 0
      = hypermodel_at h' 0.
Proof.
  assert (R : ∃ h' self',
             _build_network
               (chain_heap "dense" None (Some [10]) OtherHyperModel)
               (declared [0] [1]) = Ok (h', self')
             ∧ shape_of (fit_shapes [[600; 28; 28]] [[600]] self' h') 1
               = Some [1]
             ∧ HyperModel.output_shape
                 (hypermodel_at
                    (fit_shapes [[600; 28; 28]] [[600]] self' h') 0)
               = Some [10]).
  { eexists _, _. split; [vm_compute; reflexivity|].
    split; vm_compute; reflexivity. }
  destruct R as (h' & self' & R1 & R2 & R3). exists h', self'.
  split; [exact R1|]. split; [exact R2|]. split; [exact R3|].
  exact (proj1 (fit_keeps_resolution _ h' (declared [0] [1]) self'
                  [[600; 28; 28]] [[600]] R1) 0).
Defined.
